(** * LifeOS Protocol: URI codec, resolver registry and event validators

    A shallow embedding of [uriResolver.js] (class [LifeURIResolver] and the
    memory resolver), of [isValidEventType] from [eventTypes.js], of
    [validateLifeOSEvent] from [index.js] and of [validateLinkedURIs] from
    [validate.js], together with the properties of the protocol
    specification that concern them.

    JavaScript strings are sequences of UTF-16 code units; values are the
    plain data of JSON and object literals; exceptions are an error result. *)

From Stdlib Require Import String Ascii DecimalString QArith Qcanon.
From stdpp Require Import gmap list numbers.

#[local] Set Warnings "-register-all".

(** ** Strings *)

(** A JavaScript string: its UTF-16 code units. *)
Abbreviation jsstring := (list N).

(** The code units of a literal of the source text (all of them are ASCII). *)
Definition lit (s : string) : jsstring :=
  map N_of_ascii (list_ascii_of_string s).

Definition chr (a : ascii) : N := N_of_ascii a.
Arguments chr a%_char : simpl never.
Arguments lit s%_string : simpl never.

Definition is_digit (c : N) : bool := (chr "0" <=? c)%N && (c <=? chr "9")%N.
Definition is_lower (c : N) : bool := (chr "a" <=? c)%N && (c <=? chr "z")%N.
Definition is_upper (c : N) : bool := (chr "A" <=? c)%N && (c <=? chr "Z")%N.

(** [s.startsWith(p)] *)
Fixpoint startsWith (s p : jsstring) {struct p} : bool :=
  match p, s with
  | [], _ => true
  | _ :: _, [] => false
  | a :: p', b :: s' => (a =? b)%N && startsWith s' p'
  end.

(** [s.substring(n)]: the code units from index [n] on. *)
Definition substring (s : jsstring) (n : nat) : jsstring := drop n s.

(** [s.split(sep)] for a separator of one code unit: never the empty array. *)
Fixpoint split (sep : N) (s : jsstring) : list jsstring :=
  match s with
  | [] => [[]]
  | c :: r =>
      if (c =? sep)%N then [] :: split sep r
      else match split sep r with
           | w :: ws => (c :: w) :: ws
           | [] => [[c]]
           end
  end.

(** [parts.join(sep)] on an array of strings. *)
Fixpoint join (sep : jsstring) (parts : list jsstring) : jsstring :=
  match parts with
  | [] => []
  | x :: xs => match xs with [] => x | _ :: _ => x ++ sep ++ join sep xs end
  end.

(** ** Regular expressions of the source

    The three patterns are anchored at the start and have no alternation:
    two are fixed sequences of digits and punctuation, one is two runs of
    lower-case letters around a dot. *)

Inductive Atom := Digit | Chr (c : N).

Definition atom_ok (a : Atom) (c : N) : bool :=
  match a with Digit => is_digit c | Chr x => (c =? x)%N end.

(** Match [pat] at the start of [s]; the unmatched rest on success. *)
Fixpoint match_prefix (pat : list Atom) (s : jsstring) {struct pat} : option jsstring :=
  match pat, s with
  | [], _ => Some s
  | _ :: _, [] => None
  | a :: pat', c :: s' => if atom_ok a c then match_prefix pat' s' else None
  end.

(** [\d{4}-\d{2}-\d{2}] *)
Definition DATE_ATOMS : list Atom :=
  [Digit; Digit; Digit; Digit; Chr (chr "-"); Digit; Digit; Chr (chr "-"); Digit; Digit].

(** [T\d{2}:\d{2}:\d{2}] *)
Definition TIME_ATOMS : list Atom :=
  [Chr (chr "T"); Digit; Digit; Chr (chr ":"); Digit; Digit; Chr (chr ":"); Digit; Digit].

(** [/^\d{4}-\d{2}-\d{2}$/.test(s)] (no [m] flag: [$] is the end of input) *)
Definition date_re (s : jsstring) : bool :=
  match match_prefix DATE_ATOMS s with Some [] => true | _ => false end.

(** [/^\d{4}-\d{2}-\d{2}T\d{2}:\d{2}:\d{2}/.test(s)]: a prefix match. *)
Definition timestamp_re (s : jsstring) : bool :=
  match match_prefix (DATE_ATOMS ++ TIME_ATOMS) s with Some _ => true | None => false end.

(** The longest run of lower-case letters at the start of [s], and the rest. *)
Fixpoint lower_run (s : jsstring) : jsstring * jsstring :=
  match s with
  | c :: r => if is_lower c then let '(a, b) := lower_run r in (c :: a, b) else ([], s)
  | [] => ([], [])
  end.

(** [/^[a-z]+\.[a-z]+$/.test(s)]: the dot is not a letter, so the greedy
    first run ends exactly at the first code unit that is not a letter. *)
Definition type_re (s : jsstring) : bool :=
  match lower_run s with
  | (_ :: _, d :: r) =>
      (d =? chr ".")%N && negb (Nat.eqb (length r) 0) && forallb is_lower r
  | _ => false
  end.

(** ** Values

    A Number is modelled by its exact rational value, or [NaN], or an
    infinity; the two zeros are not told apart (the code never divides).
    The code does no arithmetic on Numbers: it only tests them. *)

Inductive JsNum := NaN | Infinity (negative : bool) | Fin (q : Qc).

(** The values an event can hold: what [JSON.parse] and object literals
    build (no functions, no accessors, no cycles). An object is the finite
    map of its own properties. *)
Inductive JsVal :=
| VUndefined
| VNull
| VBool (b : bool)
| VNum (n : JsNum)
| VStr (s : jsstring)
| VArr (elems : list JsVal)
| VObj (props : gmap jsstring JsVal).

Definition num (z : Z) : JsVal := VNum (Fin (Qc_of_Z z)).

(** ** Errors

    The source throws plain [Error] objects that differ by their message;
    the runtime itself throws [TypeError] and [URIError]. One constructor
    stands for each message, with the values it interpolates. *)

(** What the runtime faults on. *)
Inductive Fault :=
| ReadOfNullish (v : JsVal) (prop : jsstring)  (* [v.prop] with [v] undefined or null *)
| NotAFunction (v : JsVal) (method : jsstring) (* [v.method(..)] where [v.method] is undefined *)
| NotPrimitive (v : JsVal)                     (* [v] converted to a string or a number, and it has neither *)
| MalformedURI.                                (* [URIError] of the URI coding functions *)

Inductive LifeError :=
| InvalidURIFormat                      (* 'Invalid life:// URI format' *)
| URISegments                           (* 'life:// URI must have format: ...' *)
| DateFormat                            (* 'Date must be in YYYY-MM-DD format' *)
| MissingComponents                     (* 'Missing required URI components' *)
| ResolverNotFunction                   (* 'Resolver must be a function' *)
| NoResolver (source : jsstring)        (* 'No resolver registered for source: ...' *)
| ResolveFailed (uri cause : jsstring)  (* 'Failed to resolve URI ...: ...' *)
| MissingField (field : jsstring)       (* 'Missing required field: ...' *)
| BadTimestamp (v : JsVal)              (* 'Invalid timestamp format: ...' *)
| BadEventType (v : JsVal)              (* 'Invalid event type: ...' *)
| BadSource (v : JsVal)                 (* 'Invalid source: ...' *)
| BadTitle (v : JsVal)                  (* 'Invalid title: ...' *)
| BadLinkedURI (v : JsVal)              (* 'Invalid linked URI: ...' *)
| BadMood (v : JsVal)                   (* 'Invalid mood: ...' *)
| BadDuration (v : JsVal)               (* 'Invalid duration: ...' *)
| EventNotFound (key : jsstring)        (* 'Event not found: ...' *)
| Runtime (f : Fault).

(** The error kinds by which the specification names the throw sites. *)
Inductive ErrorKind :=
| FormatError | MissingFieldError | RangeError | ValidationError
| ResolverNotFoundError | ResolutionError | NotFoundError
| TypeErrorClass | RuntimeError.

Definition kind (e : LifeError) : ErrorKind :=
  match e with
  | InvalidURIFormat | URISegments | DateFormat => FormatError
  | BadTimestamp _ | BadEventType _ | BadSource _ | BadTitle _ | BadLinkedURI _ => FormatError
  | MissingComponents => ValidationError
  | ResolverNotFunction => TypeErrorClass
  | NoResolver _ => ResolverNotFoundError
  | ResolveFailed _ _ => ResolutionError
  | MissingField _ => MissingFieldError
  | BadMood _ | BadDuration _ => RangeError
  | EventNotFound _ => NotFoundError
  | Runtime _ => RuntimeError
  end.

(** The outcome of a call that can throw. *)
Inductive result (A : Type) :=
| OK (a : A)
| Throw (e : LifeError).
Arguments OK {A} a.
Arguments Throw {A} e.

Definition bind {A B} (m : result A) (k : A -> result B) : result B :=
  match m with OK a => k a | Throw e => Throw e end.

Notation "x <- m ;; k" := (bind m (fun x => k))
  (at level 100, m at next level, right associativity).
Notation "m ;;; k" := (bind m (fun _ => k))
  (at level 100, right associativity).

(** [if (c) throw e] *)
Definition throw_if (c : bool) (e : LifeError) : result unit :=
  if c then Throw e else OK tt.

(** ** The runtime's URI coding functions

    [encodeURIComponent] and [decodeURIComponent] as ECMAScript defines
    them (abstract operations Encode and Decode with the empty extra sets):
    UTF-8 octets written as [%XX], surrogate pairs combined, and a
    [URIError] on a lone surrogate or on a malformed escape. *)

Section URICoding.
Local Open Scope N_scope.

(** The code units left as they are: letters, digits and [-_.!~*'()]. *)
Definition uriUnescaped (c : N) : bool :=
  is_lower c || is_upper c || is_digit c || existsb (N.eqb c) (lit "-_.!~*'()").

Definition is_lead (c : N) : bool := (0xD800 <=? c) && (c <=? 0xDBFF).
Definition is_trail (c : N) : bool := (0xDC00 <=? c) && (c <=? 0xDFFF).

(** The code point of a surrogate pair. *)
Definition pair_code_point (lead trail : N) : N :=
  (lead - 0xD800) * 0x400 + (trail - 0xDC00) + 0x10000.

(** UTF16EncodeCodePoint *)
Definition utf16_units (cp : N) : jsstring :=
  if cp <=? 0xFFFF then [cp]
  else [(cp - 0x10000) / 0x400 + 0xD800; (cp - 0x10000) mod 0x400 + 0xDC00].

(** The UTF-8 octets of a code point: one to four, the payload in groups
    of six bits after the lead octet. *)
Definition utf8_octets (cp : N) : list N :=
  let cont (v : N) := 0x80 + v mod 0x40 in
  if cp <? 0x80 then [cp]
  else if cp <? 0x800 then [0xC0 + cp / 0x40; cont cp]
  else if cp <? 0x10000 then [0xE0 + cp / 0x1000; cont (cp / 0x40); cont cp]
  else [0xF0 + cp / 0x40000; cont (cp / 0x1000); cont (cp / 0x40); cont cp].

(** The code point that a lead octet and its continuation octets encode,
    when they are the valid encoding of one: no overlong form, no
    surrogate, at most 10FFFF. The octets come from [decode_sequence], a
    lead octet of the right range and continuation octets [10xxxxxx]. *)
Definition utf8_code_point (octets : list N) : option N :=
  let low (b : N) := b - 0x80 in
  match octets with
  | [b0; b1] =>
      let v := (b0 - 0xC0) * 0x40 + low b1 in
      if 0x80 <=? v then Some v else None
  | [b0; b1; b2] =>
      let v := (b0 - 0xE0) * 0x1000 + low b1 * 0x40 + low b2 in
      if (0x800 <=? v) && negb ((0xD800 <=? v) && (v <=? 0xDFFF)) then Some v else None
  | [b0; b1; b2; b3] =>
      let v := (b0 - 0xF0) * 0x40000 + low b1 * 0x1000 + low b2 * 0x40 + low b3 in
      if (0x10000 <=? v) && (v <=? 0x10FFFF) then Some v else None
  | _ => None
  end.

Definition hex_digit (n : N) : N :=
  if n <? 10 then chr "0" + n else chr "A" + (n - 10).

(** [%XX], upper-case and two digits wide. *)
Definition percent_octet (b : N) : jsstring :=
  [chr "%"; hex_digit (b / 16); hex_digit (b mod 16)].

Definition escape_code_point (cp : N) : jsstring :=
  concat (map percent_octet (utf8_octets cp)).

Fixpoint encodeURIComponent (s : jsstring) : result jsstring :=
  match s with
  | [] => OK []
  | c :: rest =>
      if uriUnescaped c then
        r <- encodeURIComponent rest;; OK (c :: r)
      else if is_trail c then Throw (Runtime MalformedURI)
      else if is_lead c then
        match rest with
        | d :: rest' =>
            if is_trail d then
              r <- encodeURIComponent rest';;
              OK (escape_code_point (pair_code_point c d) ++ r)
            else Throw (Runtime MalformedURI)
        | [] => Throw (Runtime MalformedURI)
        end
      else
        r <- encodeURIComponent rest;; OK (escape_code_point c ++ r)
  end.

Definition hex_value (c : N) : option N :=
  if is_digit c then Some (c - chr "0")
  else if (chr "A" <=? c) && (c <=? chr "F") then Some (c - chr "A" + 10)
  else if (chr "a" <=? c) && (c <=? chr "f") then Some (c - chr "a" + 10)
  else None.

(** Read one escape [%XX] at the start of [s] and go on with its octet and
    the rest of [s]; a [URIError] when [s] does not start with one. *)
Definition with_octet {A} (s : jsstring) (k : N -> jsstring -> result A) : result A :=
  match s with
  | p :: a :: b :: r =>
      if p =? chr "%" then
        match hex_value a, hex_value b with
        | Some h, Some l => k (16 * h + l) r
        | _, _ => Throw (Runtime MalformedURI)
        end
      else Throw (Runtime MalformedURI)
  | _ => Throw (Runtime MalformedURI)
  end.

(** The same for a continuation octet, [10xxxxxx]. *)
Definition with_continuation {A} (s : jsstring) (k : N -> jsstring -> result A) : result A :=
  with_octet s (fun b r =>
    if (0x80 <=? b) && (b <? 0xC0) then k b r else Throw (Runtime MalformedURI)).

Definition decoded (octets : list N) : result jsstring :=
  match utf8_code_point octets with
  | Some v => OK (utf16_units v)
  | None => Throw (Runtime MalformedURI)
  end.

(** After the escape of the octet [b0]: the number of its leading 1 bits
    tells how many continuation escapes follow in [r1]; [decode] goes on
    with the rest. *)
Definition decode_sequence (decode : jsstring -> result jsstring) (b0 : N) (r1 : jsstring)
  : result jsstring :=
  if b0 <? 0x80 then                      (* no leading 1 bit *)
    r <- decode r1;; OK (b0 :: r)
  else if b0 <? 0xC0 then Throw (Runtime MalformedURI)
  else if b0 <? 0xE0 then                 (* two octets *)
    with_continuation r1 (fun b1 r2 =>
      u <- decoded [b0; b1];;
      r <- decode r2;; OK (u ++ r))
  else if b0 <? 0xF0 then                 (* three octets *)
    with_continuation r1 (fun b1 r2 =>
    with_continuation r2 (fun b2 r3 =>
      u <- decoded [b0; b1; b2];;
      r <- decode r3;; OK (u ++ r)))
  else if b0 <? 0xF8 then                 (* four octets *)
    with_continuation r1 (fun b1 r2 =>
    with_continuation r2 (fun b2 r3 =>
    with_continuation r3 (fun b3 r4 =>
      u <- decoded [b0; b1; b2; b3];;
      r <- decode r4;; OK (u ++ r))))
  else Throw (Runtime MalformedURI).

Fixpoint decodeURIComponent (s : jsstring) : result jsstring :=
  match s with
  | [] => OK []
  | c :: rest =>
      if negb (c =? chr "%") then
        r <- decodeURIComponent rest;; OK (c :: r)
      else with_octet s (decode_sequence decodeURIComponent)
  end.

End URICoding.

(** ** The URI codec ([LifeURIResolver.parseURI], [generateURI]) *)

Record URIComponents := {
  date : jsstring;
  source : jsstring;
  type : jsstring;
  slug : jsstring;
  full : jsstring
}.

Definition parseURI (uri : jsstring) : result URIComponents :=
  if negb (startsWith uri (lit "life://")) then Throw InvalidURIFormat
  else
    let path := substring uri 6 in
    let parts := filter (fun part => 0 < length part) (split (chr "/") path) in
    if (length parts <? 4)%nat then Throw URISegments
    else
      match parts with
      | date :: source :: type :: slugParts =>
          slug <- decodeURIComponent (join (lit "/") slugParts);;
          if negb (date_re date) then Throw DateFormat
          else OK {| date := date; source := source; type := type;
                     slug := slug; full := uri |}
      | _ => Throw URISegments        (* not reached: there are four parts *)
      end.

(** [!s] on a string: the empty string is the only falsy one. *)
Definition str_falsy (s : jsstring) : bool :=
  match s with [] => true | _ :: _ => false end.

(** The four components are strings here, as [URIComponents] of [types.ts]
    declares them. *)
Definition generateURI (components : URIComponents) : result jsstring :=
  let date := date components in
  let source := source components in
  let type := type components in
  let slug := slug components in
  if str_falsy date || str_falsy source || str_falsy type || str_falsy slug
  then Throw MissingComponents
  else if negb (date_re date) then Throw DateFormat
  else
    encodedSlug <- encodeURIComponent slug;;
    OK (lit "life://" ++ date ++ lit "/" ++ source ++ lit "/" ++ type
          ++ lit "/" ++ encodedSlug).


(** ** What is left to the JavaScript engine

    Three conversions of the runtime are taken as they come: the decimal
    text of a Number, the Number a string denotes, and the wording of the
    runtime's own [TypeError] and [URIError] messages. Everything below holds
    for any engine. *)

Class Engine := {
  numberToString : JsNum -> jsstring;
  stringToNumber : jsstring -> JsNum;
  faultMessage : Fault -> jsstring
}.

(** The digits after the decimal point of [r / d], for [0 <= r < d]. *)
Fixpoint fraction_digits (fuel : nat) (r d : Z) : jsstring :=
  match fuel with
  | O => []
  | S fuel' =>
      if (r =? 0)%Z then []
      else (chr "0" + Z.to_N (10 * r / d))%N :: fraction_digits fuel' (10 * r mod d)%Z d
  end.

(** An engine to run examples on, close to V8. Finite Numbers print their
    exact decimal expansion (what JavaScript prints between 1e-6 and 1e21
    when fifteen digits suffice); only optionally signed decimal integers
    are read back from strings, every other text is [NaN]. *)
Definition node_engine : Engine := {|
  numberToString n :=
    match n with
    | NaN => lit "NaN"
    | Infinity negative => if negative then lit "-Infinity" else lit "Infinity"
    | Fin q =>
        let d := Z.pos (Qden q) in
        let a := Z.abs (Qnum q) in
        (if (Qnum q <? 0)%Z then lit "-" else [])
          ++ lit (NilZero.string_of_uint (N.to_uint (Z.to_N (a / d))))
          ++ match fraction_digits 1100 (a mod d) d with
             | [] => []
             | digits => lit "." ++ digits
             end
    end;
  stringToNumber s :=
    match s with
    | [] => Fin 0
    | _ :: _ =>
        match NilZero.int_of_string (string_of_list_ascii (map ascii_of_N s)) with
        | Some i => Fin (Qc_of_Z (Z.of_int i))
        | None => NaN
        end
    end;
  faultMessage f :=
    match f with
    | ReadOfNullish v prop =>
        lit "Cannot read properties of "
          ++ (match v with VNull => lit "null" | _ => lit "undefined" end)
          ++ lit " (reading '" ++ prop ++ lit "')"
    | NotAFunction _ method => method ++ lit " is not a function"
    | NotPrimitive _ => lit "Cannot convert object to primitive value"
    | MalformedURI => lit "URI malformed"
    end
|}.

(** ** Resolver callbacks

    A callback is a function from the parsed components to the way its
    promise settles: with a value, or with a rejection of which [catch]
    reads the [message]. *)

Inductive Settled :=
| Resolved (event : JsVal)
| Rejected (reason : jsstring).

Abbreviation Resolver := (URIComponents -> Settled).

Section Protocol.
Context `{Engine}.

(** ** Conversions and tests of the language *)

(** The conversion of an object to a primitive asks it for [toString] and
    [valueOf] and calls what it finds callable. No value of an event is
    callable, so that an object with a property [toString] of its own hides
    the inherited method and has no primitive value: the conversion throws a
    [TypeError], whatever [valueOf] is (the inherited one returns the object
    itself). An array is converted by [join], which converts its elements
    other than [undefined] and [null]. *)
Fixpoint converts (v : JsVal) : bool :=
  match v with
  | VObj props => negb (bool_decide (is_Some (props !! lit "toString")))
  | VArr elems => forallb converts elems
  | _ => true
  end.

(** The string of a value that converts. *)
Fixpoint text (v : JsVal) : jsstring :=
  match v with
  | VUndefined => lit "undefined"
  | VNull => lit "null"
  | VBool b => if b then lit "true" else lit "false"
  | VNum n => numberToString n
  | VStr s => s
  | VArr elems =>
      join (lit ",")
        (map (fun e => match e with VUndefined | VNull => [] | _ => text e end) elems)
  | VObj _ => lit "[object Object]"
  end.

(** The Number of a value that converts; an array or an object goes
    through its string. *)
Definition number (v : JsVal) : JsNum :=
  match v with
  | VUndefined => NaN
  | VNull => Fin 0
  | VBool b => if b then Fin 1 else Fin 0
  | VNum n => n
  | VStr s => stringToNumber s
  | VArr _ | VObj _ => stringToNumber (text v)
  end.

(** ToString, as template literals and [RegExp.prototype.test] apply it,
    and ToNumber, as the comparisons with a Number do. *)
Definition ToString (v : JsVal) : result jsstring :=
  if converts v then OK (text v) else Throw (Runtime (NotPrimitive v)).

Definition ToNumber (v : JsVal) : result JsNum :=
  if converts v then OK (number v) else Throw (Runtime (NotPrimitive v)).

(** ToBoolean *)
Definition truthy (v : JsVal) : bool :=
  match v with
  | VUndefined | VNull => false
  | VBool b => b
  | VNum NaN => false
  | VNum (Infinity _) => true
  | VNum (Fin q) => negb (bool_decide (q = 0%Qc))
  | VStr s => negb (str_falsy s)
  | VArr _ | VObj _ => true
  end.

(** [a < b] on Numbers: false as soon as one of them is [NaN]. *)
Definition num_lt (a b : JsNum) : bool :=
  match a, b with
  | NaN, _ | _, NaN => false
  | Infinity true, Infinity true => false
  | Infinity true, _ => true
  | _, Infinity true => false
  | Infinity false, _ => false
  | _, Infinity false => true
  | Fin p, Fin q => bool_decide (p < q)%Qc
  end.

(** What [v < k] and [v > k] give against an integer literal [k], once
    [v] has converted. *)
Definition lt_lit (v : JsVal) (k : Z) : bool := num_lt (number v) (Fin (Qc_of_Z k)).
Definition gt_lit (v : JsVal) (k : Z) : bool := num_lt (Fin (Qc_of_Z k)) (number v).

(** [v < k] and [v > k]: the conversion comes first. *)
Definition less_than (v : JsVal) (k : Z) : result bool :=
  ToNumber v;;; OK (lt_lit v k).
Definition greater_than (v : JsVal) (k : Z) : result bool :=
  ToNumber v;;; OK (gt_lit v k).

(** [Number.isInteger(v)]: a finite Number without fractional part. *)
Definition Number_isInteger (v : JsVal) : bool :=
  match v with
  | VNum (Fin q) => Pos.eqb (Qden q) 1
  | _ => false
  end.

Definition Array_isArray (v : JsVal) : bool :=
  match v with VArr _ => true | _ => false end.

Definition is_undefined (v : JsVal) : bool :=
  match v with VUndefined => true | _ => false end.

(** [event[name]] and [event.name] for the names of event fields: a read
    on [undefined] or [null] faults; an object gives its own property or
    [undefined]; a primitive or an array has no property of such a name. *)
Definition get (v : JsVal) (name : jsstring) : result JsVal :=
  match v with
  | VUndefined | VNull => Throw (Runtime (ReadOfNullish v name))
  | VObj props => OK (default VUndefined (props !! name))
  | _ => OK VUndefined
  end.

(** [v.startsWith(p)]: only a string has the method. *)
Definition call_startsWith (v : JsVal) (p : jsstring) : result bool :=
  match v with
  | VStr s => OK (startsWith s p)
  | VUndefined | VNull => Throw (Runtime (ReadOfNullish v (lit "startsWith")))
  | _ => Throw (Runtime (NotAFunction v (lit "startsWith")))
  end.

(** [parseURI(uri)] when the caller passes a value that may not be a string:
    the first statement calls [uri.startsWith]. *)
Definition parseURI_value (uri : JsVal) : result URIComponents :=
  match uri with
  | VStr s => parseURI s
  | VUndefined | VNull => Throw (Runtime (ReadOfNullish uri (lit "startsWith")))
  | _ => Throw (Runtime (NotAFunction uri (lit "startsWith")))
  end.

(** ** Messages *)

Definition quoted (s : jsstring) : jsstring := [34%N] ++ s ++ [34%N].

(** [error.message] *)
Definition message (e : LifeError) : jsstring :=
  match e with
  | InvalidURIFormat => lit "Invalid life:// URI format"
  | URISegments =>
      lit "life:// URI must have format: life://<date>/<source>/<type>/<slug>"
  | DateFormat => lit "Date must be in YYYY-MM-DD format"
  | MissingComponents => lit "Missing required URI components"
  | ResolverNotFunction => lit "Resolver must be a function"
  | NoResolver source => lit "No resolver registered for source: " ++ source
  | ResolveFailed uri cause => lit "Failed to resolve URI " ++ uri ++ lit ": " ++ cause
  | MissingField field =>
      lit "Missing required field: " ++ field
        ++ lit ". LifeEvents must include timestamp, source, type, and title."
  | BadTimestamp v =>
      lit "Invalid timestamp format: " ++ quoted (text v)
        ++ lit ". Expected ISO 8601 format (e.g., " ++ quoted (lit "2025-07-09T09:00:00Z")
        ++ lit ")"
  | BadEventType v =>
      lit "Invalid event type: " ++ quoted (text v)
        ++ lit ". Expected format: category.action (e.g., " ++ quoted (lit "music.play")
        ++ lit ", " ++ quoted (lit "calendar.meeting") ++ lit ")"
  | BadSource v =>
      lit "Invalid source: " ++ quoted (text v)
        ++ lit ". Source must be a non-empty string identifying the application or service."
  | BadTitle v =>
      lit "Invalid title: " ++ quoted (text v)
        ++ lit ". Title must be a non-empty string describing the event."
  | BadLinkedURI v =>
      lit "Invalid linked URI: " ++ quoted (text v)
        ++ lit ". All linked URIs must start with " ++ quoted (lit "life://")
  | BadMood v =>
      lit "Invalid mood: " ++ text v ++ lit ". Mood must be an integer between 1 and 10."
  | BadDuration v =>
      lit "Invalid duration: " ++ text v
        ++ lit ". Duration must be a non-negative integer (seconds)."
  | EventNotFound key => lit "Event not found: " ++ key
  | Runtime f => faultMessage f
  end.

(** ** The core validator ([LifeURIResolver.validateLifeEvent]) *)

Definition REQUIRED : list jsstring :=
  [lit "timestamp"; lit "source"; lit "type"; lit "title"].

(** [for (const field of required) if (!event[field]) throw ...] *)
Fixpoint check_required (event : JsVal) (fields : list jsstring) : result unit :=
  match fields with
  | [] => OK tt
  | field :: rest =>
      v <- get event field;;
      if negb (truthy v) then Throw (MissingField field)
      else check_required event rest
  end.

(** [for (const uri of event.linked_uris) if (!uri.startsWith('life://')) throw ...] *)
Fixpoint check_linked_uris (uris : list JsVal) : result unit :=
  match uris with
  | [] => OK tt
  | uri :: rest =>
      starts <- call_startsWith uri (lit "life://");;
      if negb starts then Throw (BadLinkedURI uri)
      else check_linked_uris rest
  end.

(** [typeof v !== 'string' || v.length === 0] *)
Definition not_nonempty_string (v : JsVal) : bool :=
  match v with
  | VStr s => Nat.eqb (length s) 0
  | _ => true
  end.

Definition array_elems (v : JsVal) : list JsVal :=
  match v with VArr elems => elems | _ => [] end.

(** [if (c) throw new Error(`... ${v} ...`)]: the message is built, and
    the value converted, before the error is thrown. *)
Definition throw_shown (c : bool) (v : JsVal) (e : LifeError) : result unit :=
  if c then ToString v;;; Throw e else OK tt.

(** [if (!re.test(v)) throw new Error(`... ${v} ...`)]: the test converts
    the value first. *)
Definition test_shown (re : jsstring -> bool) (v : JsVal) (e : LifeError) : result unit :=
  shown <- ToString v;;
  throw_if (negb (re shown)) e.

(** The comparisons of the mood and of the duration are reached by an
    integer Number only, which converts. *)
Definition validateLifeEvent (event : JsVal) : result unit :=
  check_required event REQUIRED;;;
  timestamp <- get event (lit "timestamp");;
  test_shown timestamp_re timestamp (BadTimestamp timestamp);;;
  type <- get event (lit "type");;
  test_shown type_re type (BadEventType type);;;
  source <- get event (lit "source");;
  throw_shown (not_nonempty_string source) source (BadSource source);;;
  title <- get event (lit "title");;
  throw_shown (not_nonempty_string title) title (BadTitle title);;;
  linked_uris <- get event (lit "linked_uris");;
  (if truthy linked_uris && Array_isArray linked_uris
   then check_linked_uris (array_elems linked_uris)
   else OK tt);;;
  mood <- get event (lit "mood");;
  (if negb (is_undefined mood)
   then throw_shown (negb (Number_isInteger mood) || lt_lit mood 1 || gt_lit mood 10)
                    mood (BadMood mood)
   else OK tt);;;
  duration <- get event (lit "duration");;
  (if negb (is_undefined duration)
   then throw_shown (negb (Number_isInteger duration) || lt_lit duration 0)
                    duration (BadDuration duration)
   else OK tt).

(** ** The resolver registry and [resolveURI] *)

(** The state of a [LifeURIResolver]: its [resolvers] map. *)
Record LifeURIResolver := { resolvers : gmap jsstring Resolver }.

(** [new LifeURIResolver()] *)
Definition new_LifeURIResolver : LifeURIResolver := {| resolvers := ∅ |}.

(** What a caller hands to [registerResolver]: a function or another value. *)
Inductive Handler :=
| Function (f : Resolver)
| NotFunction (v : JsVal).

Definition registerResolver (this : LifeURIResolver) (source : jsstring) (resolver : Handler)
  : result LifeURIResolver :=
  match resolver with
  | NotFunction _ => Throw ResolverNotFunction
  | Function f => OK {| resolvers := <[source := f]> (resolvers this) |}
  end.

Definition hasResolver (this : LifeURIResolver) (source : jsstring) : bool :=
  bool_decide (is_Some (resolvers this !! source)).

(** The parse and the lookup are outside the [try]; what the callback or
    the validation throws is rethrown with the URI and its message. *)
Definition resolveURI (this : LifeURIResolver) (uri : jsstring) : result JsVal :=
  parsed <- parseURI uri;;
  match resolvers this !! source parsed with
  | None => Throw (NoResolver (source parsed))
  | Some resolver =>
      match resolver parsed with
      | Rejected reason => Throw (ResolveFailed uri reason)
      | Resolved event =>
          match validateLifeEvent event with
          | Throw error => Throw (ResolveFailed uri (message error))
          | OK _ => OK event
          end
      end
  end.

(** [BuiltInResolvers.memoryResolver(events)] *)
Definition memoryResolver (events : gmap jsstring JsVal) : Resolver :=
  fun parsed =>
    let key := date parsed ++ lit "/" ++ source parsed ++ lit "/" ++ type parsed
                 ++ lit "/" ++ slug parsed in
    let event := default VUndefined (events !! key) in
    if negb (truthy event) then Rejected (message (EventNotFound key))
    else Resolved event.

(** ** The event-type registry ([eventTypes.js]) *)

Local Open Scope string_scope.

Definition EVENT_TYPES_SOURCE : list (string * list (string * string)) :=
  [ ("music",
      [ ("play", "User started playing a track");
        ("pause", "User paused playback");
        ("skip", "User skipped to next track");
        ("like", "User liked a track");
        ("add_to_playlist", "User added track to playlist") ]);
    ("calendar",
      [ ("meeting", "Scheduled meeting or appointment");
        ("reminder", "Calendar reminder triggered");
        ("birthday", "Birthday or anniversary");
        ("travel", "Travel event (flight, hotel, etc.)");
        ("deadline", "Project or task deadline") ]);
    ("journal",
      [ ("entry", "Journal entry or note");
        ("mood", "Mood tracking entry");
        ("thought", "Quick thought or idea");
        ("reflection", "Longer reflection or analysis");
        ("goal", "Goal setting or tracking") ]);
    ("fitness",
      [ ("workout", "Exercise session");
        ("step", "Step count milestone");
        ("sleep", "Sleep tracking");
        ("weight", "Weight measurement");
        ("nutrition", "Food or meal logged") ]);
    ("location",
      [ ("arrive", "Arrived at a location");
        ("depart", "Left a location");
        ("visit", "Visited a place");
        ("commute", "Travel between locations") ]);
    ("photo",
      [ ("capture", "Photo taken");
        ("edit", "Photo edited");
        ("share", "Photo shared");
        ("album", "Album created or updated") ]);
    ("communication",
      [ ("call", "Phone or video call");
        ("message", "Text or chat message");
        ("email", "Email sent or received");
        ("social", "Social media activity") ]);
    ("work",
      [ ("task", "Task completed");
        ("project", "Project milestone");
        ("meeting", "Work meeting");
        ("focus", "Focus session");
        ("break", "Work break") ]);
    ("learning",
      [ ("course", "Course or lesson");
        ("reading", "Reading session");
        ("study", "Study session");
        ("skill", "Skill development") ]);
    ("finance",
      [ ("purchase", "Purchase made");
        ("expense", "Expense logged");
        ("income", "Income received");
        ("budget", "Budget update") ]) ].

Local Close Scope string_scope.

(** The object [EVENT_TYPES]: category, then action, then description. Only
    its own keys are looked up here; the names every object inherits from
    the runtime ([constructor], [toString], ...) are left out. *)
Definition EVENT_TYPES : gmap jsstring (gmap jsstring jsstring) :=
  list_to_map
    (map (fun entry : string * list (string * string) =>
            (lit (fst entry),
             list_to_map (map (fun a : string * string => (lit (fst a), lit (snd a)))
                              (snd entry))))
         EVENT_TYPES_SOURCE).

(** [isValidEventType(eventType)]: the description when the type is
    registered (a truthy string), [undefined] otherwise. A missing second
    part reads the key [undefined]. Only a string has [split]. *)
Definition isValidEventType (eventType : JsVal) : result JsVal :=
  match eventType with
  | VStr s =>
      let parts := split (chr ".") s in
      let category := default (lit "undefined") (parts !! 0%nat) in
      let action := default (lit "undefined") (parts !! 1%nat) in
      OK (match EVENT_TYPES !! category with
          | None => VUndefined
          | Some actions => default VUndefined (VStr <$> actions !! action)
          end)
  | VUndefined | VNull => Throw (Runtime (ReadOfNullish eventType (lit "split")))
  | _ => Throw (Runtime (NotAFunction eventType (lit "split")))
  end.

(** ** The validator of the package entry point ([index.js])

    The type it interpolates is a string: [isValidEventType] has returned
    on it. The mood is converted by the comparison when it is truthy. *)

Record ValidationResult := { isValid : bool; errors : list jsstring }.

(** [if (c) errors.push(msg)] *)
Definition push_if (c : bool) (msg : jsstring) (errors : list jsstring) : list jsstring :=
  if c then errors ++ [msg] else errors.

(** [event.mood && (event.mood < 1 || event.mood > 10)], as the condition
    of an [if]. *)
Definition mood_out_of_range (mood : JsVal) : result bool :=
  if truthy mood
  then below <- less_than mood 1;;
       if below then OK true else greater_than mood 10
  else OK false.

Definition validateLifeOSEvent (event : JsVal) : result ValidationResult :=
  let errors : list jsstring := [] in
  title <- get event (lit "title");;
  let errors := push_if (negb (truthy title)) (lit "Title is required") errors in
  type <- get event (lit "type");;
  let errors := push_if (negb (truthy type)) (lit "Type is required") errors in
  source <- get event (lit "source");;
  let errors := push_if (negb (truthy source)) (lit "Source is required") errors in
  timestamp <- get event (lit "timestamp");;
  let errors := push_if (negb (truthy timestamp)) (lit "Timestamp is required") errors in
  uri <- get event (lit "uri");;
  let errors := push_if (negb (truthy uri)) (lit "URI is required") errors in
  errors <- (if truthy type
             then registered <- isValidEventType type;;
                  OK (push_if (negb (truthy registered))
                        (lit "Invalid event type: " ++ text type) errors)
             else OK errors);;
  let errors :=
    match parseURI_value uri with
    | OK _ => errors
    | Throw error => errors ++ [lit "Invalid URI format: " ++ message error]
    end in
  mood <- get event (lit "mood");;
  out_of_range <- mood_out_of_range mood;;
  let errors := push_if out_of_range (lit "Mood must be between 1 and 10") errors in
  OK {| isValid := Nat.eqb (length errors) 0; errors := errors |}.

(** ** The linked-URI check of the command-line validator ([validate.js]) *)

(** [for (const uri of event.linked_uris) try { parseURI(uri) } catch ...]:
    the handler interpolates the element, outside any [try]. *)
Fixpoint check_each_linked (uris : list JsVal) (errors : list jsstring)
  : result (list jsstring) :=
  match uris with
  | [] => OK errors
  | uri :: rest =>
      errors <- match parseURI_value uri with
                | OK _ => OK errors
                | Throw error =>
                    shown <- ToString uri;;
                    OK (errors ++ [lit "Invalid linked URI: " ++ shown ++ lit " - "
                                     ++ message error])
                end;;
      check_each_linked rest errors
  end.

(** [LifeEventValidator.validateLinkedURIs], on the list [this.errors]. *)
Definition validateLinkedURIs (event : JsVal) (errors : list jsstring)
  : result (list jsstring) :=
  linked_uris <- get event (lit "linked_uris");;
  if truthy linked_uris then
    if negb (Array_isArray linked_uris)
    then OK (errors ++ [lit "linked_uris must be an array"])
    else check_each_linked (array_elems linked_uris) errors
  else OK errors.

End Protocol.

(** ** Vocabulary of the statements *)

(** The URI text of four segments. *)
Definition life_uri (d src ty sl : jsstring) : jsstring :=
  lit "life://" ++ d ++ lit "/" ++ src ++ lit "/" ++ ty ++ lit "/" ++ sl.

(** A run of [n] slashes. *)
Definition slashes (n : nat) : jsstring := replicate n (chr "/").

(** [{...c, full: uri}] *)
Definition with_full (c : URIComponents) (uri : jsstring) : URIComponents :=
  {| date := date c; source := source c; type := type c; slug := slug c; full := uri |}.

(** A segment of a URI: not empty and without a slash. *)
Definition segment (s : jsstring) : Prop := s <> [] /\ chr "/" ∉ s.

(** Object and string literals: [obj [prop "a" v; prop "b" w]] is [{a: v, b: w}]. *)
Definition prop (name : string) (v : JsVal) : jsstring * JsVal := (lit name, v).
Arguments prop name%_string v.

Definition obj (props : list (jsstring * JsVal)) : JsVal := VObj (list_to_map props).
Arguments obj props%_list.

Definition str (s : string) : JsVal := VStr (lit s).
Arguments str s%_string.

(** The value an object holds under a name: [undefined] when it has none. *)
Definition field (o : gmap jsstring JsVal) (name : string) : JsVal :=
  default VUndefined (o !! lit name).
Arguments field o name%_string.

(** An integer between [lo] and [hi]. *)
Definition integer_between (lo hi : Z) (v : JsVal) : Prop :=
  exists z : Z, (lo <= z <= hi)%Z /\ v = num z.

Section Vocabulary.
Context `{Engine}.

(** The rules of [validateLifeEvent] in their order, on the seven values it
    reads from an object. *)
Definition validate_fields (timestamp source type title linked_uris mood duration : JsVal)
  : result unit :=
  throw_if (negb (truthy timestamp)) (MissingField (lit "timestamp"));;;
  throw_if (negb (truthy source)) (MissingField (lit "source"));;;
  throw_if (negb (truthy type)) (MissingField (lit "type"));;;
  throw_if (negb (truthy title)) (MissingField (lit "title"));;;
  test_shown timestamp_re timestamp (BadTimestamp timestamp);;;
  test_shown type_re type (BadEventType type);;;
  throw_shown (not_nonempty_string source) source (BadSource source);;;
  throw_shown (not_nonempty_string title) title (BadTitle title);;;
  (if truthy linked_uris && Array_isArray linked_uris
   then check_linked_uris (array_elems linked_uris)
   else OK tt);;;
  (if negb (is_undefined mood)
   then throw_shown (negb (Number_isInteger mood) || lt_lit mood 1 || gt_lit mood 10)
                    mood (BadMood mood)
   else OK tt);;;
  (if negb (is_undefined duration)
   then throw_shown (negb (Number_isInteger duration) || lt_lit duration 0)
                    duration (BadDuration duration)
   else OK tt).

(** A value converts to a string that the pattern [re] matches. *)
Definition shown_matches (re : jsstring -> bool) (v : JsVal) : Prop :=
  exists shown, ToString v = OK shown /\ re shown = true.

(** Timestamp, source and type are present and pass their own rules. *)
Definition head_valid (o : gmap jsstring JsVal) : Prop :=
  truthy (field o "timestamp") = true /\
  truthy (field o "source") = true /\
  truthy (field o "type") = true /\
  shown_matches timestamp_re (field o "timestamp") /\
  shown_matches type_re (field o "type") /\
  not_nonempty_string (field o "source") = false.

End Vocabulary.

(** ** Sample data (the event of the README) *)

Definition sample_props : list (jsstring * JsVal) :=
  [prop "timestamp" (str "2025-07-09T09:00:00Z"); prop "source" (str "spotify");
   prop "type" (str "music.play"); prop "title" (str "Pink + White")].

(** [{...sample, ...extra}]: the sample with some properties set on top. *)
Definition sample_with (extra : list (jsstring * JsVal)) : gmap jsstring JsVal :=
  list_to_map (extra ++ sample_props).

(** The sample without its timestamp. *)
Definition untimed_event : JsVal :=
  obj [prop "source" (str "spotify"); prop "type" (str "music.play");
       prop "title" (str "Pink + White")].

(** A registry with one source, served from memory: one well-formed event
    and one without timestamp. *)
Definition sample_events : gmap jsstring JsVal :=
  list_to_map
    [(lit "2025-07-09/spotify/music.play/pink-white", VObj (sample_with []));
     (lit "2025-07-09/spotify/music.play/untimed", untimed_event)].

Definition sample_registry : LifeURIResolver :=
  {| resolvers := {[ lit "spotify" := memoryResolver (H := node_engine) sample_events ]} |}.

(** A string of UTF-16 code units: every element below 2^16. *)
Definition code_units (s : jsstring) : Prop := Forall (fun c => (c < 0x10000)%N) s.

(** [f] holds of every number below [n]. *)
Definition all_below (n : N) (f : N -> bool) : bool :=
  forallb f (map N.of_nat (seq 0 (N.to_nat n))).


(** ** Further vocabulary of the statements *)

(** The segments [parts] of a path, each after a run of slashes: the pair
    [(n, p)] stands for [n + 1] slashes and the segment [p]. *)
Definition path_after (parts : list (nat * jsstring)) : jsstring :=
  concat (map (fun np => slashes (S np.1) ++ np.2) parts).

(** A string without lone surrogate ([String.prototype.isWellFormed]). *)
Fixpoint well_formed (s : jsstring) : bool :=
  match s with
  | [] => true
  | c :: rest =>
      if is_trail c then false
      else if is_lead c then
        match rest with
        | d :: rest' => is_trail d && well_formed rest'
        | [] => false
        end
      else well_formed rest
  end.

Section EventVocabulary.
Context `{Engine}.

(** An array of strings that all start with the scheme. *)
Definition prefixed_strings (v : JsVal) : Prop :=
  exists uris : list jsstring,
    v = VArr (map VStr uris) /\
    Forall (fun s => startsWith s (lit "life://") = true) uris.

(** A non-empty string. *)
Definition nonempty_string (v : JsVal) : Prop := exists s, v = VStr s /\ s <> [].

(** A non-negative integer. *)
Definition natural (v : JsVal) : Prop := exists z : Z, (0 <= z)%Z /\ v = num z.

(** The objects that pass the core validator, said by their fields. The
    timestamp and the type are tested through their text: they need not be
    strings. *)
Definition well_formed_event (o : gmap jsstring JsVal) : Prop :=
  truthy (field o "timestamp") = true /\
  shown_matches timestamp_re (field o "timestamp") /\
  truthy (field o "type") = true /\
  shown_matches type_re (field o "type") /\
  nonempty_string (field o "source") /\
  nonempty_string (field o "title") /\
  (Array_isArray (field o "linked_uris") = true -> prefixed_strings (field o "linked_uris")) /\
  (field o "mood" = VUndefined \/ integer_between 1 10 (field o "mood")) /\
  (field o "duration" = VUndefined \/ natural (field o "duration")).

End EventVocabulary.

(** ** The rest of the event-type registry ([eventTypes.js]) *)

(** [getAllEventTypesList()]: the entries of [EVENT_TYPES] in the order of
    the object literal, each action as [category.action]. *)
Definition getAllEventTypesList : list jsstring :=
  flat_map (fun entry : string * list (string * string) =>
              map (fun a : string * string => lit (fst entry) ++ lit "." ++ lit (fst a))
                  (snd entry))
           EVENT_TYPES_SOURCE.

(** [getEventTypeDescription(eventType)]: the description, or [null] for a
    type that is not registered. Own keys only, as for [isValidEventType]. *)
Definition getEventTypeDescription (eventType : JsVal) : result JsVal :=
  match eventType with
  | VStr s =>
      let parts := split (chr ".") s in
      let category := default (lit "undefined") (parts !! 0%nat) in
      let action := default (lit "undefined") (parts !! 1%nat) in
      OK (match EVENT_TYPES !! category with
          | None => VNull
          | Some actions =>
              match actions !! action with
              | Some description => if str_falsy description then VNull else VStr description
              | None => VNull
              end
          end)
  | VUndefined | VNull => Throw (Runtime (ReadOfNullish eventType (lit "split")))
  | _ => Throw (Runtime (NotAFunction eventType (lit "split")))
  end.

(** ** The command-line validator ([validate.js], class [LifeEventValidator]) *)

Module CLI.
Section Validator.
Context `{Engine}.

(** The time value of [new Date(v)] for a value that converts, [NaN] for
    an invalid date: the parsing of dates is left to the runtime. *)
Variable timeValue : JsVal -> JsNum.

(** [new Date(v)]: the constructor converts an object first. *)
Definition Date_value (v : JsVal) : result JsNum :=
  if converts v then OK (timeValue v) else Throw (Runtime (NotPrimitive v)).

(** The two lists of a validator; its resolver has no state that the
    validation reads. *)
Record LifeEventValidator := { errors : list jsstring; warnings : list jsstring }.

(** [typeof v === 'object'] *)
Definition typeof_object (v : JsVal) : bool :=
  match v with VObj _ | VArr _ | VNull => true | _ => false end.

Definition validateEventType (this : LifeEventValidator) (event : JsVal)
  : result LifeEventValidator :=
  type <- get event (lit "type");;
  if truthy type then
    registered <- isValidEventType type;;
    if negb (truthy registered) then
      OK {| errors := errors this;
            warnings := warnings this ++
              [lit "Event type " ++ quoted (text type)
                 ++ lit " is not in the standard registry. Consider using a standard type."] |}
    else OK this
  else OK this.

Definition validateMetadata (this : LifeEventValidator) (event : JsVal)
  : result LifeEventValidator :=
  metadata <- get event (lit "metadata");;
  if truthy metadata && negb (typeof_object metadata) then
    OK {| errors := errors this ++ [lit "Metadata must be an object"];
          warnings := warnings this |}
  else OK this.

Definition validateTimestamps (this : LifeEventValidator) (event : JsVal)
  : result LifeEventValidator :=
  created_at <- get event (lit "created_at");;
  timestamp <- get event (lit "timestamp");;
  if truthy created_at && truthy timestamp then
    created <- Date_value created_at;;
    timestamp <- Date_value timestamp;;
    if num_lt created timestamp then
      OK {| errors := errors this;
            warnings := warnings this ++
              [lit "created_at is before timestamp. This might indicate an issue."] |}
    else OK this
  else OK this.

(** [validateEvent(event)]: the boolean it returns and the lists it leaves
    in the validator. The lists are reset first: the validator it is called
    on does not matter. *)
Definition validateEvent (event : JsVal) : result (bool * LifeEventValidator) :=
  let this := {| errors := []; warnings := [] |} in
  let this :=
    match validateLifeEvent event with
    | OK _ => this
    | Throw error => {| errors := errors this ++ [message error]; warnings := warnings this |}
    end in
  this <- validateEventType this event;;
  this <- validateMetadata this event;;
  linked <- validateLinkedURIs event (errors this);;
  let this := {| errors := linked; warnings := warnings this |} in
  this <- validateTimestamps this event;;
  OK (Nat.eqb (length (errors this)) 0, this).

End Validator.
End CLI.

(** ** Linking events ([index.js], [linkEvents]) *)

Section Linking.
Context `{Engine}.

(** The name of the property of index [i]. *)
Definition index_key (i : nat) : jsstring := lit (NilZero.string_of_uint (Nat.to_uint i)).

(** [{...v}]: the own enumerable properties of a value. An object gives its
    properties, an array its elements and a string its code units under
    their indices, every other value nothing. *)
Definition spread (v : JsVal) : gmap jsstring JsVal :=
  match v with
  | VObj props => props
  | VArr elems => list_to_map (imap (fun i e => (index_key i, e)) elems)
  | VStr s => list_to_map (imap (fun i c => (index_key i, VStr [c])) s)
  | _ => ∅
  end.

(** [event.id] on a value that is neither [undefined] nor [null]. *)
Definition event_id (event : JsVal) : JsVal :=
  match get event (lit "id") with OK id => id | Throw _ => VUndefined end.

(** [event && event.id && event.uri]: the reads are reached on a truthy
    value only, where they do not fault. *)
Definition is_linkable (event : JsVal) : bool :=
  truthy event &&
  match get event (lit "id"), get event (lit "uri") with
  | OK id, OK uri => truthy id && truthy uri
  | _, _ => false
  end.

(** [linkEvents(primaryEvent, relatedEvents)]. The copies of the related
    events that point back to the primary one are built and dropped; what
    is left of them is the read of [primaryEvent.id], once for every valid
    related event. *)
Definition linkEvents (primaryEvent relatedEvents : JsVal) : result JsVal :=
  let relatedEvents :=
    if negb (Array_isArray relatedEvents) then [relatedEvents]
    else array_elems relatedEvents in
  let validRelatedEvents := List.filter is_linkable relatedEvents in
  let updatedPrimaryEvent :=
    VObj (<[lit "related_events" := VArr (map event_id validRelatedEvents)]>
            (spread primaryEvent)) in
  match validRelatedEvents with
  | [] => OK updatedPrimaryEvent
  | _ :: _ => _ <- get primaryEvent (lit "id");; OK updatedPrimaryEvent
  end.

End Linking.

(** ** Building events and their URIs ([index.js], [createLifeOSEvent],
    [generateLifeOSURI]) *)

(** A call of the entry point returns, or throws what
    [new Date(v).toISOString()] throws (the [TypeError] of the constructor
    on a value that does not convert, the [RangeError] of [toISOString] on
    an invalid date), or throws as the code above does. *)
Inductive Outcome (A : Type) :=
| Returns (a : A)
| ThrowsOnDate
| Throws (e : LifeError).
Arguments Returns {A} a.
Arguments ThrowsOnDate {A}.
Arguments Throws {A} e.

(** [s.replace(/[^a-z0-9]+/g, '-')]: [in_run] tells that the code unit
    before was replaced. *)
Fixpoint dash_runs (in_run : bool) (s : jsstring) : jsstring :=
  match s with
  | [] => []
  | c :: rest =>
      if is_lower c || is_digit c then c :: dash_runs false rest
      else if in_run then dash_runs true rest
      else chr "-" :: dash_runs true rest
  end.

(** [s.replace(/^-|-$/g, '')]: one dash off the start, then one off the end. *)
Definition trim_dash (s : jsstring) : jsstring :=
  let s := match s with
           | c :: rest => if (c =? chr "-")%N then rest else s
           | [] => []
           end in
  match reverse s with
  | c :: rest => if (c =? chr "-")%N then reverse rest else s
  | [] => []
  end.

Section EntryPoint.
Context `{Engine}.

(** Left to the runtime: [String.prototype.toLowerCase], the text of
    [new Date(v).toISOString()] ([None] where it throws: on a value that
    does not convert, and on an invalid date), the text of
    [new Date().toISOString()] at the time of the call, and the identifier
    made of the clock and of a random number. *)
Variable toLowerCase : jsstring -> jsstring.
Variable toISOString : JsVal -> option jsstring.
Variable now : jsstring.
Variable eventId : jsstring.

(** [title.toLowerCase().replace(/[^a-z0-9]+/g, '-').replace(/^-|-$/g, '')] *)
Definition slugify (title : jsstring) : jsstring :=
  trim_dash (dash_runs false (toLowerCase title)).

(** [new Date(timestamp).toISOString().split('T')[0]] and the slug of
    [title], then the URI of the template, which converts the source and
    the type. Only a string has [toLowerCase]. *)
Definition uri_of (timestamp source type title : JsVal) : Outcome jsstring :=
  match toISOString timestamp with
  | None => ThrowsOnDate
  | Some iso =>
      let date := default [] (split (chr "T") iso !! 0%nat) in
      match title with
      | VStr t =>
          match ToString source, ToString type with
          | OK source, OK type =>
              Returns (lit "life://" ++ date ++ lit "/" ++ source ++ lit "/"
                         ++ type ++ lit "/" ++ slugify t)
          | Throw e, _ | _, Throw e => Throws e
          end
      | VUndefined | VNull => Throws (Runtime (ReadOfNullish title (lit "toLowerCase")))
      | _ => Throws (Runtime (NotAFunction title (lit "toLowerCase")))
      end
  end.

Definition generateLifeOSURI (event : JsVal) : Outcome jsstring :=
  match get event (lit "timestamp"), get event (lit "title"),
        get event (lit "source"), get event (lit "type") with
  | OK timestamp, OK title, OK source, OK type => uri_of timestamp source type title
  | Throw e, _, _, _ | _, Throw e, _, _ | _, _, Throw e, _ | _, _, _, Throw e => Throws e
  end.

(** [name = fallback] in a destructuring: the default replaces [undefined] only. *)
Definition or_default (v fallback : JsVal) : JsVal :=
  if is_undefined v then fallback else v.

Definition createLifeOSEvent (eventData : JsVal) : Outcome JsVal :=
  match get eventData (lit "title") with
  | Throw e => Throws e
  | OK title =>
      let read name := match get eventData (lit name) with OK v => v | Throw _ => VUndefined end in
      let type := read "type"%string in
      let source := or_default (read "source"%string) (str "manual") in
      let timestamp := or_default (read "timestamp"%string) (VStr now) in
      let tags := or_default (read "tags"%string) (VArr []) in
      let metadata := or_default (read "metadata"%string) (VObj ∅) in
      let related_events := or_default (read "related_events"%string) (VArr []) in
      match uri_of timestamp source type title with
      | ThrowsOnDate => ThrowsOnDate
      | Throws e => Throws e
      | Returns uri =>
          Returns (obj [prop "id" (VStr eventId);
                        prop "uri" (VStr uri);
                        prop "protocol_version" (str "1.0");
                        prop "source" source;
                        prop "type" type;
                        prop "title" title;
                        prop "metadata" metadata;
                        prop "tags" tags;
                        prop "mood" (read "mood"%string);
                        prop "timestamp" timestamp;
                        prop "duration_minutes" (read "duration_minutes"%string);
                        prop "location" (read "location"%string);
                        prop "energy_level" (read "energy_level"%string);
                        prop "parent_event_id" (read "parent_event_id"%string);
                        prop "related_events" related_events;
                        prop "user_id" (read "user_id"%string)])
      end
  end.

End EntryPoint.

(** ** A runtime to run the examples on *)

(** Lower case on ASCII letters, where every runtime agrees. *)
Definition ascii_toLowerCase (s : jsstring) : jsstring :=
  map (fun c => if is_upper c then (c + 32)%N else c) s.

(** A runtime that reads the timestamps of the form
    YYYY-MM-DDTHH:MM:SS as times in UTC and no other text. *)
Definition utc_toISOString (v : JsVal) : option jsstring :=
  match v with
  | VStr s => if timestamp_re s then Some (take 19 s ++ lit ".000Z") else None
  | _ => None
  end.

(** A runtime that takes a Number for the time it counts and reads no text. *)
Definition number_timeValue (v : JsVal) : JsNum :=
  match v with VNum n => n | _ => NaN end.

(** ** More sample data *)

(** The sample with a slug that needs escapes. *)
Definition escaped_components : URIComponents :=
  {| date := lit "2025-07-09"; source := lit "spotify"; type := lit "music.play";
     slug := lit "pink+white / 50%"; full := [] |}.

Definition escaped_uri : jsstring :=
  lit "life://2025-07-09/spotify/music.play/pink%2Bwhite%20%2F%2050%25".

(** The sample event with its URI, as the entry point wants it. *)
Definition sample_entry : gmap jsstring JsVal :=
  sample_with [prop "uri" (str "life://2025-07-09/spotify/music.play/pink-white")].

(** Data for [createLifeOSEvent]: no source, no timestamp. *)
Definition sample_data (title : string) : gmap jsstring JsVal :=
  list_to_map [prop "title" (str title); prop "type" (str "music.play"); prop "mood" (num 8)].
Arguments sample_data title%_string.

(** Events with an id and a URI, to be linked. *)
Definition linkable_event (id : string) : JsVal :=
  obj [prop "id" (str id); prop "uri" (str "life://2025-07-09/journal/journal.entry/x")].
Arguments linkable_event id%_string.
(** * Properties

    ** The codec on the examples of the documentation *)

Example generate_pink_white :
  generateURI {| date := lit "2025-07-09"; source := lit "spotify";
                 type := lit "music.play"; slug := lit "pink+white"; full := [] |}
  = OK (lit "life://2025-07-09/spotify/music.play/pink%2Bwhite").
Proof. vm_compute. reflexivity. Qed.

Example decode_euro :
  decodeURIComponent (lit "a%E2%82%ACb%20%f0%9F%98%80") = OK [97; 0x20AC; 98; 32; 0xD83D; 0xDE00]%N.
Proof. vm_compute. reflexivity. Qed.

Example encode_pair :
  encodeURIComponent [0xD83D; 0xDE00; 0xE9; 47]%N = OK (lit "%F0%9F%98%80%C3%A9%2F").
Proof. vm_compute. reflexivity. Qed.

Example decode_overlong : decodeURIComponent (lit "%C0%AF") = Throw (Runtime MalformedURI).
Proof. vm_compute. reflexivity. Qed.

Example decode_malformed :
  Forall (fun s => decodeURIComponent (lit s) = Throw (Runtime MalformedURI))
    ["%"; "%4"; "%zz"; "%80"; "%C3"; "%C3x"; "%E0%80%80"; "%ED%A0%80"; "%F4%90%80%80";
     "%F8%88%80%80%80"]%string.
Proof. repeat constructor. Qed.

Example decode_lower_case_hex : decodeURIComponent (lit "%e2%82%ac") = OK [0x20AC%N].
Proof. vm_compute. reflexivity. Qed.

Example encode_lone_surrogate :
  encodeURIComponent [0xD83D%N] = Throw (Runtime MalformedURI)
  /\ encodeURIComponent [0xDE00; 0xD83D]%N = Throw (Runtime MalformedURI).
Proof. split; vm_compute; reflexivity. Qed.

Example parse_plain :
  parseURI (lit "life://2025-07-09/spotify/music.play/pink%2Bwhite")
  = OK {| date := lit "2025-07-09"; source := lit "spotify"; type := lit "music.play";
          slug := lit "pink+white";
          full := lit "life://2025-07-09/spotify/music.play/pink%2Bwhite" |}.
Proof. vm_compute. reflexivity. Qed.

(** ** Strings *)

Lemma startsWith_app (p r : jsstring) : startsWith (p ++ r) p = true.
Proof.
  induction p as [|a p IH]; [done|].
  simpl. by rewrite N.eqb_refl, IH.
Qed.

Lemma startsWith_inv (s p : jsstring) :
  startsWith s p = true -> exists r, s = p ++ r.
Proof.
  revert s. induction p as [|a p IH]; intros s Hs.
  - by exists s.
  - destruct s as [|b s]; [done|]. simpl in Hs.
    apply andb_true_iff in Hs as [Hab Hs].
    apply N.eqb_eq in Hab as ->.
    destruct (IH _ Hs) as [r ->]. by exists r.
Qed.

Lemma str_falsy_nonempty (s : jsstring) : s <> [] -> str_falsy s = false.
Proof. by destruct s. Qed.

(** A string without the separator is one segment. *)
Lemma split_no_sep (sep : N) (a : jsstring) :
  sep ∉ a -> split sep a = [a].
Proof.
  induction a as [|c a IH]; intros Hsep; [done|].
  apply not_elem_of_cons in Hsep as [Hc Ha]. simpl.
  destruct (N.eqb_spec c sep) as [->|_]; [done|].
  by rewrite IH.
Qed.

(** The first segment ends at the first separator. *)
Lemma split_app_sep (sep : N) (a b : jsstring) :
  sep ∉ a -> split sep (a ++ sep :: b) = a :: split sep b.
Proof.
  induction a as [|c a IH]; intros Hsep; simpl.
  - by rewrite N.eqb_refl.
  - apply not_elem_of_cons in Hsep as [Hc Ha].
    destruct (N.eqb_spec c sep) as [->|_]; [done|].
    by rewrite IH.
Qed.

Lemma join_nonempty (sep x : jsstring) (xs : list jsstring) :
  x <> [] -> join sep (x :: xs) <> [].
Proof.
  intros Hx. simpl. destruct xs; [done|].
  destruct x; [done|]. discriminate.
Qed.

(** ** The patterns *)

Lemma match_prefix_inv (pat : list Atom) (s r : jsstring) :
  match_prefix pat s = Some r ->
  exists pre, s = pre ++ r /\ Forall2 (fun a c => atom_ok a c = true) pat pre.
Proof.
  revert s. induction pat as [|a pat IH]; intros s Hs; simpl in Hs.
  - exists []. by simplify_eq.
  - destruct s as [|c s]; [done|].
    destruct (atom_ok a c) eqn:Hac; [|done].
    destruct (IH _ Hs) as (pre & -> & Hpre).
    exists (c :: pre). split; [done|]. by constructor.
Qed.

(** A string that passes the date pattern is ten digits and dashes. *)
Lemma date_re_shape (d : jsstring) :
  date_re d = true ->
  length d = 10%nat /\ Forall (fun c => is_digit c = true \/ c = chr "-") d.
Proof.
  unfold date_re. intros Hd.
  destruct (match_prefix DATE_ATOMS d) as [[|]|] eqn:Hm; try done.
  apply match_prefix_inv in Hm as (pre & -> & Hpre).
  rewrite app_nil_r. split.
  - apply Forall2_length in Hpre. by rewrite <-Hpre.
  - clear Hd. unfold DATE_ATOMS in Hpre.
    repeat match goal with
           | Hf : Forall2 _ (_ :: _) _ |- _ =>
               apply Forall2_cons_inv_l in Hf as (? & ? & ? & Hf & ->)
           | Hf : Forall2 _ [] _ |- _ => apply Forall2_nil_inv_l in Hf as ->
           end.
    cbn [atom_ok] in *.
    repeat match goal with
           | |- Forall _ (_ :: _) => constructor
           | |- Forall _ [] => constructor
           end;
      first [ by left | right; by apply N.eqb_eq ].
Qed.

Lemma date_re_no_slash (d : jsstring) : date_re d = true -> chr "/" ∉ d.
Proof.
  intros Hd. apply date_re_shape in Hd as [_ Hd].
  intros Hin. rewrite list.Forall_forall in Hd.
  destruct (Hd _ Hin) as [Hdig|Hdash]; [|done].
  vm_compute in Hdig. done.
Qed.

Lemma date_re_nonempty (d : jsstring) : date_re d = true -> d <> [].
Proof. intros Hd%date_re_shape. by destruct d, Hd. Qed.

(** ** The URI coding functions *)

Lemma uriUnescaped_not_percent (c : N) : uriUnescaped c = true -> c <> chr "%".
Proof. intros Hc ->. vm_compute in Hc. done. Qed.

Lemma uriUnescaped_not_slash (c : N) : uriUnescaped c = true -> c <> chr "/".
Proof. intros Hc ->. vm_compute in Hc. done. Qed.

(** Nothing is escaped in a string of unescaped code units... *)
Lemma encodeURIComponent_unescaped (s : jsstring) :
  Forall (fun c => uriUnescaped c = true) s -> encodeURIComponent s = OK s.
Proof.
  induction 1 as [|c s Hc _ IH]; [done|].
  simpl. by rewrite Hc, IH.
Qed.

(** ... and a string without [%] decodes to itself. *)
Lemma decodeURIComponent_plain (s : jsstring) :
  chr "%" ∉ s -> decodeURIComponent s = OK s.
Proof.
  induction s as [|c s IH]; intros Hs; [done|].
  apply not_elem_of_cons in Hs as [Hc Hs]. simpl.
  destruct (N.eqb_spec c (chr "%")) as [->|_]; [done|].
  simpl. by rewrite IH.
Qed.

Lemma utf16_units_nonempty (v : N) : utf16_units v <> [].
Proof. unfold utf16_units. by destruct (v <=? 65535)%N. Qed.

(** Decoding never yields the empty string from a non-empty one. *)
Lemma decodeURIComponent_nonempty (s r : jsstring) :
  decodeURIComponent s = OK r -> s <> [] -> r <> [].
Proof.
  destruct s as [|c rest]; [done|]. intros Hdec _.
  pose proof utf16_units_nonempty as Hu.
  simpl in Hdec.
  unfold decode_sequence, with_continuation, with_octet, decoded, bind in Hdec.
  repeat case_match; simplify_eq; try done;
    intros Happ; apply app_eq_nil in Happ as [Happ _]; by apply Hu in Happ.
Qed.

(** ** Decoding what was encoded *)

Section DecodeEncode.
Local Open Scope N_scope.

(** Linear arithmetic with division and remainder by constants. *)
Ltac dlia := zify; Z.to_euclidean_division_equations; lia.

(** Settle the comparisons of the goal from the bounds at hand. *)
Ltac decide_tests :=
  repeat match goal with
         | |- context [?a <? ?b] =>
             first [ rewrite (proj2 (N.ltb_lt a b)) by dlia
                   | rewrite (proj2 (N.ltb_ge a b)) by dlia ]
         | |- context [?a <=? ?b] =>
             first [ rewrite (proj2 (N.leb_le a b)) by dlia
                   | rewrite (proj2 (N.leb_gt a b)) by dlia ]
         end.

Lemma all_below_spec (n : N) (f : N -> bool) :
  all_below n f = true -> forall x, x < n -> f x = true.
Proof.
  unfold all_below. rewrite forallb_forall. intros Hall x Hx.
  apply Hall, in_map_iff. exists (N.to_nat x). split; [lia|].
  apply in_seq. lia.
Qed.

Lemma hex_value_hex_digit (n : N) : n < 16 -> hex_value (hex_digit n) = Some n.
Proof.
  intros Hn.
  apply (all_below_spec 16 (fun n => bool_decide (hex_value (hex_digit n) = Some n)))
    in Hn; [|by vm_compute].
  by apply bool_decide_eq_true in Hn.
Qed.

Lemma with_octet_percent {A} (b : N) (s : jsstring) (k : N -> jsstring -> result A) :
  b < 256 -> with_octet (percent_octet b ++ s) k = k b s.
Proof.
  intros Hb. unfold with_octet, percent_octet. cbn [app].
  rewrite N.eqb_refl, !hex_value_hex_digit.
  - f_equal. symmetry. apply N.div_mod'.
  - by apply N.mod_lt.
  - apply N.Div0.div_lt_upper_bound. lia.
Qed.

Lemma with_continuation_percent {A} (b : N) (s : jsstring) (k : N -> jsstring -> result A) :
  0x80 <= b < 0xC0 -> with_continuation (percent_octet b ++ s) k = k b s.
Proof.
  intros Hb. unfold with_continuation. rewrite with_octet_percent by lia.
  by rewrite (proj2 (N.leb_le _ _)), (proj2 (N.ltb_lt _ _)) by lia.
Qed.

Lemma decodeURIComponent_percent (b : N) (s : jsstring) :
  b < 256 ->
  decodeURIComponent (percent_octet b ++ s) = decode_sequence decodeURIComponent b s.
Proof.
  intros Hb.
  change (decodeURIComponent (percent_octet b ++ s))
    with (with_octet (percent_octet b ++ s) (decode_sequence decodeURIComponent)).
  by apply with_octet_percent.
Qed.

(** The escapes of a code point decode to its code units. *)
Lemma decodeURIComponent_escape (cp : N) (rest : jsstring) :
  cp < 0xD800 \/ 0xE000 <= cp <= 0x10FFFF ->
  decodeURIComponent (escape_code_point cp ++ rest)
  = (r <- decodeURIComponent rest;; OK (utf16_units cp ++ r)).
Proof.
  intros Hcp. unfold escape_code_point, utf8_octets.
  destruct (N.ltb_spec cp 0x80); [|destruct (N.ltb_spec cp 0x800);
    [|destruct (N.ltb_spec cp 0x10000)]];
    cbn [map concat]; rewrite <-?app_assoc; cbn [app];
    rewrite decodeURIComponent_percent by dlia;
    unfold decode_sequence; decide_tests;
    rewrite ?with_continuation_percent by dlia.
  - unfold utf16_units. by decide_tests.
  - unfold decoded, utf8_code_point.
    replace ((0xC0 + cp / 0x40 - 0xC0) * 0x40 + (0x80 + cp mod 0x40 - 0x80)) with cp by dlia.
    by decide_tests.
  - unfold decoded, utf8_code_point.
    replace ((0xE0 + cp / 0x1000 - 0xE0) * 0x1000 + (0x80 + (cp / 0x40) mod 0x40 - 0x80) * 0x40
             + (0x80 + cp mod 0x40 - 0x80)) with cp by dlia.
    destruct Hcp; by decide_tests.
  - unfold decoded, utf8_code_point.
    replace ((0xF0 + cp / 0x40000 - 0xF0) * 0x40000
             + (0x80 + (cp / 0x1000) mod 0x40 - 0x80) * 0x1000
             + (0x80 + (cp / 0x40) mod 0x40 - 0x80) * 0x40
             + (0x80 + cp mod 0x40 - 0x80)) with cp by dlia.
    by decide_tests.
Qed.

Lemma is_lead_spec (c : N) : is_lead c = true <-> 0xD800 <= c <= 0xDBFF.
Proof. unfold is_lead. by rewrite andb_true_iff, !N.leb_le. Qed.

Lemma is_trail_spec (c : N) : is_trail c = true <-> 0xDC00 <= c <= 0xDFFF.
Proof. unfold is_trail. by rewrite andb_true_iff, !N.leb_le. Qed.

Lemma utf16_units_pair (c d : N) :
  is_lead c = true -> is_trail d = true -> utf16_units (pair_code_point c d) = [c; d].
Proof.
  intros Hc%is_lead_spec Hd%is_trail_spec. unfold utf16_units, pair_code_point.
  decide_tests. f_equal; [|f_equal]; dlia.
Qed.

(** Induction along the cases of [encodeURIComponent]. *)
Lemma encodeURIComponent_cases (P : jsstring -> jsstring -> Prop) :
  P [] [] ->
  (forall c rest r,
     uriUnescaped c = true -> encodeURIComponent rest = OK r -> P rest r ->
     P (c :: rest) (c :: r)) ->
  (forall c d rest r,
     uriUnescaped c = false -> is_lead c = true -> is_trail d = true ->
     encodeURIComponent rest = OK r -> P rest r ->
     P (c :: d :: rest) (escape_code_point (pair_code_point c d) ++ r)) ->
  (forall c rest r,
     uriUnescaped c = false -> is_lead c = false -> is_trail c = false ->
     encodeURIComponent rest = OK r -> P rest r ->
     P (c :: rest) (escape_code_point c ++ r)) ->
  forall s e, encodeURIComponent s = OK e -> P s e.
Proof.
  intros Hnil Hplain Hpair Hone s.
  remember (length s) as n eqn:Hn. revert s Hn.
  induction n as [n IH] using (well_founded_induction lt_wf).
  intros s -> e Henc.
  destruct s as [|c rest]; [by injection Henc as <-|].
  cbn [encodeURIComponent] in Henc.
  destruct (uriUnescaped c) eqn:Hun.
  { destruct (encodeURIComponent rest) as [r|] eqn:Hr; [|done].
    injection Henc as <-. apply Hplain; try done.
    eapply IH; [|done..]. simpl. lia. }
  destruct (is_trail c) eqn:Htrail; [done|].
  destruct (is_lead c) eqn:Hlead.
  - destruct rest as [|d rest]; [done|].
    destruct (is_trail d) eqn:Hd; [|done].
    destruct (encodeURIComponent rest) as [r|] eqn:Hr; [|done].
    injection Henc as <-. apply Hpair; try done.
    eapply IH; [|done..]. simpl. lia.
  - destruct (encodeURIComponent rest) as [r|] eqn:Hr; [|done].
    injection Henc as <-. apply Hone; try done.
    eapply IH; [|done..]. simpl. lia.
Qed.

(** Decoding inverts encoding, on every string of code units that can be
    encoded (one without a lone surrogate). *)
Lemma decodeURIComponent_encodeURIComponent (s e : jsstring) :
  code_units s -> encodeURIComponent s = OK e -> decodeURIComponent e = OK s.
Proof.
  intros Hs Henc. revert Hs.
  apply (encodeURIComponent_cases (fun s e => code_units s -> decodeURIComponent e = OK s))
    with (s := s) (e := e); [| | | |done]; clear s e Henc.
  - done.
  - intros c rest r Hc _ IH [_ Hrest]%Forall_cons_1.
    cbn [decodeURIComponent].
    destruct (N.eqb_spec c (chr "%")) as [->|_]; [done|].
    cbn [negb]. by rewrite IH.
  - intros c d rest r _ Hc Hd _ IH [_ [_ Hrest]%Forall_cons_1]%Forall_cons_1.
    rewrite decodeURIComponent_escape.
    + rewrite IH by done. cbn [bind]. by rewrite utf16_units_pair.
    + apply is_lead_spec in Hc. apply is_trail_spec in Hd.
      unfold pair_code_point. right. dlia.
  - intros c rest r _ Hlead Htrail _ IH [Hc Hrest]%Forall_cons_1.
    apply not_true_iff_false in Hlead, Htrail.
    rewrite is_lead_spec in Hlead. rewrite is_trail_spec in Htrail.
    rewrite decodeURIComponent_escape by lia.
    rewrite IH by done. cbn [bind]. unfold utf16_units. by decide_tests.
Qed.

Lemma hex_digit_not_slash (n : N) : hex_digit n <> chr "/".
Proof.
  unfold hex_digit.
  change (chr "/") with 47. change (chr "0") with 48. change (chr "A") with 65.
  destruct (n <? 10); lia.
Qed.

Lemma escape_code_point_no_slash (cp : N) : chr "/" ∉ escape_code_point cp.
Proof.
  unfold escape_code_point. generalize (utf8_octets cp). intros octets.
  induction octets as [|b octets IH]; cbn [map concat].
  - apply not_elem_of_nil.
  - rewrite elem_of_app. intros [Hin|Hin]; [|done].
    unfold percent_octet in Hin. rewrite !elem_of_cons in Hin.
    destruct Hin as [?|[Hin|[Hin|Hin]]]; [done| | |by apply elem_of_nil in Hin];
      symmetry in Hin; by apply hex_digit_not_slash in Hin.
Qed.

Lemma escape_code_point_nonempty (cp : N) : escape_code_point cp <> [].
Proof.
  unfold escape_code_point, utf8_octets.
  by destruct (cp <? 0x80), (cp <? 0x800), (cp <? 0x10000).
Qed.

(** The text that [encodeURIComponent] produces is one segment. *)
Lemma encodeURIComponent_no_slash (s e : jsstring) :
  encodeURIComponent s = OK e -> chr "/" ∉ e.
Proof.
  apply (encodeURIComponent_cases (fun _ e => chr "/" ∉ e)).
  - apply not_elem_of_nil.
  - intros c rest r Hc%uriUnescaped_not_slash _ IH.
    apply not_elem_of_cons. by split.
  - intros c d rest r _ _ _ _ IH. rewrite elem_of_app.
    intros [Hin|Hin]; [by apply escape_code_point_no_slash in Hin|done].
  - intros c rest r _ _ _ _ IH. rewrite elem_of_app.
    intros [Hin|Hin]; [by apply escape_code_point_no_slash in Hin|done].
Qed.

Lemma encodeURIComponent_nonempty (s e : jsstring) :
  encodeURIComponent s = OK e -> s <> [] -> e <> [].
Proof.
  apply (encodeURIComponent_cases (fun s e => s <> [] -> e <> [])); try done.
  - intros c d rest r _ _ _ _ _ _ Happ.
    apply app_eq_nil in Happ as [Happ _]. by apply escape_code_point_nonempty in Happ.
  - intros c rest r _ _ _ _ _ _ Happ.
    apply app_eq_nil in Happ as [Happ _]. by apply escape_code_point_nonempty in Happ.
Qed.

End DecodeEncode.

(** ** Parsing *)

Local Abbreviation segments s :=
  (filter (fun part : jsstring => 0 < length part) (split (chr "/") s)).

Lemma segments_nil : segments [] = [].
Proof. done. Qed.

Lemma segments_slash (b : jsstring) : segments (chr "/" :: b) = segments b.
Proof.
  change (chr "/" :: b) with ([] ++ chr "/" :: b).
  rewrite split_app_sep by apply not_elem_of_nil.
  rewrite filter_cons_False; [done|]. simpl. lia.
Qed.

Lemma segments_slashes (n : nat) (b : jsstring) : segments (slashes n ++ b) = segments b.
Proof.
  induction n as [|n IH]; [done|].
  change (slashes (S n) ++ b) with (chr "/" :: (slashes n ++ b)).
  by rewrite segments_slash.
Qed.

Lemma segments_app (a b : jsstring) :
  segment a -> segments (a ++ chr "/" :: b) = a :: segments b.
Proof.
  intros [Ha Hsl]. rewrite split_app_sep by done.
  rewrite filter_cons_True; [done|]. destruct a; [done|]. simpl. lia.
Qed.

Lemma segments_last (a : jsstring) : segment a -> segments a = [a].
Proof.
  intros [Ha Hsl]. rewrite split_no_sep by done.
  rewrite filter_cons_True; [done|]. destruct a; [done|]. simpl. lia.
Qed.

(** One segment and then [S n] slashes. *)
Lemma segments_app_slashes (a b : jsstring) (n : nat) :
  segment a -> segments (a ++ slashes (S n) ++ b) = a :: segments b.
Proof.
  intros Ha.
  change (slashes (S n) ++ b) with (chr "/" :: (slashes n ++ b)).
  rewrite segments_app by done. f_equal. apply segments_slashes.
Qed.

Lemma segments_last_slashes (a : jsstring) (n : nat) :
  segment a -> segments (a ++ slashes n) = [a].
Proof.
  intros Ha. destruct n as [|n].
  - change (slashes 0) with (@nil N). rewrite app_nil_r. by apply segments_last.
  - rewrite <-(app_nil_r (slashes (S n))), segments_app_slashes by done.
    by rewrite segments_nil.
Qed.

Lemma substring_scheme (r : jsstring) : substring (lit "life://" ++ r) 6 = chr "/" :: r.
Proof. reflexivity. Qed.

(** Without the scheme prefix nothing else is looked at. *)
Lemma parseURI_requires_scheme (uri : jsstring) :
  startsWith uri (lit "life://") = false ->
  parseURI uri = Throw InvalidURIFormat /\ kind InvalidURIFormat = FormatError.
Proof. intros Hs. unfold parseURI. by rewrite Hs. Qed.

(** What [parseURI] does once the segments are known. *)
Lemma parseURI_parts (uri d src ty sl : jsstring) (more : list jsstring) :
  startsWith uri (lit "life://") = true ->
  segments (substring uri 6) = d :: src :: ty :: sl :: more ->
  parseURI uri =
    (slug <- decodeURIComponent (join (lit "/") (sl :: more));;
     if negb (date_re d) then Throw DateFormat
     else OK {| date := d; source := src; type := ty; slug := slug; full := uri |}).
Proof. intros Hs Hp. unfold parseURI. by rewrite Hs, Hp. Qed.

(** The parse of a URI of four segments, whatever the slashes around them. *)
Lemma parseURI_slashes (d src ty sl : jsstring) (n0 n1 n2 n3 n4 : nat) :
  segment d -> segment src -> segment ty -> segment sl ->
  let uri := lit "life://" ++ slashes n0 ++ d ++ slashes (S n1) ++ src
               ++ slashes (S n2) ++ ty ++ slashes (S n3) ++ sl ++ slashes n4 in
  parseURI uri =
    (slug <- decodeURIComponent sl;;
     if negb (date_re d) then Throw DateFormat
     else OK {| date := d; source := src; type := ty; slug := slug; full := uri |}).
Proof.
  intros Hd Hsrc Hty Hsl uri.
  apply (parseURI_parts uri d src ty sl []).
  - apply startsWith_app.
  - unfold uri. rewrite substring_scheme, segments_slash, segments_slashes.
    rewrite !segments_app_slashes by done.
    by rewrite segments_last_slashes.
Qed.

Lemma parseURI_life_uri (d src ty sl : jsstring) :
  segment d -> segment src -> segment ty -> segment sl ->
  parseURI (life_uri d src ty sl) =
    (slug <- decodeURIComponent sl;;
     if negb (date_re d) then Throw DateFormat
     else OK {| date := d; source := src; type := ty; slug := slug;
                full := life_uri d src ty sl |}).
Proof.
  intros Hd Hsrc Hty Hsl.
  pose proof (parseURI_slashes d src ty sl 0 0 0 0 0 Hd Hsrc Hty Hsl) as Hp.
  change (slashes 0) with (@nil N) in Hp. change (slashes 1) with (lit "/") in Hp.
  rewrite app_nil_r in Hp. exact Hp.
Qed.

(** ** Claims on the codec *)

(** The date pattern, position by position: ten code units, a dash at
    indices 4 and 7, a digit everywhere else. *)
Lemma date_re_spec (d : jsstring) :
  date_re d = true <->
  length d = 10%nat /\
  forall (i : nat) (c : N), d !! i = Some c ->
    if bool_decide (i = 4%nat \/ i = 7%nat) then c = chr "-" else is_digit c = true.
Proof.
  split.
  - unfold date_re. intros Hd.
    destruct (match_prefix DATE_ATOMS d) as [[|]|] eqn:Hm; try done.
    apply match_prefix_inv in Hm as (pre & -> & Hpre). rewrite app_nil_r.
    split; [apply Forall2_length in Hpre; by rewrite <-Hpre|].
    intros i c Hi.
    destruct (Forall2_lookup_r _ _ _ _ _ Hpre Hi) as (a & Ha & Hac).
    unfold DATE_ATOMS in Ha.
    do 10 (destruct i as [|i]; [simplify_eq/=; first [done | by apply N.eqb_eq]|]).
    done.
  - intros [Hlen Hpos].
    do 10 (destruct d as [|? d]; [done|]). destruct d; [|done].
    pose proof (Hpos 0%nat _ eq_refl). pose proof (Hpos 1%nat _ eq_refl).
    pose proof (Hpos 2%nat _ eq_refl). pose proof (Hpos 3%nat _ eq_refl).
    pose proof (Hpos 4%nat _ eq_refl). pose proof (Hpos 5%nat _ eq_refl).
    pose proof (Hpos 6%nat _ eq_refl). pose proof (Hpos 7%nat _ eq_refl).
    pose proof (Hpos 8%nat _ eq_refl). pose proof (Hpos 9%nat _ eq_refl).
    simpl in *. subst. unfold date_re, DATE_ATOMS. cbn [match_prefix atom_ok].
    rewrite !N.eqb_refl.
    by repeat match goal with Hdig : is_digit _ = true |- _ => rewrite Hdig; clear Hdig end.
Qed.

(** C1, as amended. For components whose four fields are non-empty strings,
    whose date matches YYYY-MM-DD, whose slug holds none of the characters
    that [encodeURIComponent] escapes, and whose source and type hold no
    slash, [generateURI] succeeds and [parseURI] of the generated URI
    returns the same date, source, type and slug. *)
Theorem generate_parse_roundtrip (c : URIComponents) :
  date c <> [] -> source c <> [] -> type c <> [] -> slug c <> [] ->
  date_re (date c) = true ->
  Forall (fun u => uriUnescaped u = true) (slug c) ->
  chr "/" ∉ source c -> chr "/" ∉ type c ->
  exists uri,
    generateURI c = OK uri /\
    parseURI uri = OK {| date := date c; source := source c; type := type c;
                         slug := slug c; full := uri |}.
Proof.
  intros Hd Hsrc Hty Hsl Hre Hun Hs1 Hs2.
  assert ((chr "/" ∉ slug c) /\ (chr "%" ∉ slug c)) as [Hs3 Hpc].
  { rewrite list.Forall_forall in Hun.
    split; intros Hin; apply Hun in Hin.
    - by apply uriUnescaped_not_slash in Hin.
    - by apply uriUnescaped_not_percent in Hin. }
  exists (life_uri (date c) (source c) (type c) (slug c)). split.
  - unfold generateURI.
    rewrite !str_falsy_nonempty, Hre by done.
    by rewrite (encodeURIComponent_unescaped _ Hun).
  - rewrite parseURI_life_uri; try (split; done).
    + by rewrite decodeURIComponent_plain, Hre.
    + split; [done|]. by apply date_re_no_slash.
Qed.

Lemma generate_parse_roundtrip_witness :
  exists uri,
    generateURI {| date := lit "2025-07-09"; source := lit "spotify";
                   type := lit "music.play"; slug := lit "pink-white"; full := [] |}
      = OK uri /\
    parseURI uri = OK {| date := lit "2025-07-09"; source := lit "spotify";
                         type := lit "music.play"; slug := lit "pink-white";
                         full := uri |}.
Proof.
  apply (generate_parse_roundtrip
           {| date := lit "2025-07-09"; source := lit "spotify";
              type := lit "music.play"; slug := lit "pink-white"; full := [] |});
    compute_done.
Defined.

(** The round trip beyond C1: whenever [generateURI] succeeds on components
    whose slug is a string of code units and whose source and type hold no
    slash, [parseURI] gives the components back, whatever the slug needs
    to have escaped. *)
Lemma generate_parse_roundtrip_any_slug (c : URIComponents) (uri : jsstring) :
  code_units (slug c) -> chr "/" ∉ source c -> chr "/" ∉ type c ->
  generateURI c = OK uri -> parseURI uri = OK (with_full c uri).
Proof.
  intros Hcu Hs1 Hs2. unfold generateURI.
  destruct (date c) as [|d0 d] eqn:Hd; [done|].
  destruct (source c) as [|s0 src] eqn:Hsrc; [done|].
  destruct (type c) as [|t0 ty] eqn:Hty; [done|].
  destruct (slug c) as [|l0 sl] eqn:Hsl; [done|].
  cbn [str_falsy orb].
  destruct (date_re (d0 :: d)) eqn:Hre; [|done]. cbn [negb].
  destruct (encodeURIComponent (l0 :: sl)) as [e|] eqn:Henc; [|done].
  cbn [bind]. intros Huri.
  assert (uri = life_uri (d0 :: d) (s0 :: src) (t0 :: ty) e) as ->
    by (unfold life_uri; congruence).
  clear Huri.
  rewrite parseURI_life_uri.
  - rewrite (decodeURIComponent_encodeURIComponent _ _ Hcu Henc). cbn [bind].
    rewrite Hre. cbn [negb]. unfold with_full. by rewrite Hd, Hsrc, Hty, Hsl.
  - split; [done|]. by apply date_re_no_slash.
  - by split.
  - by split.
  - split.
    + by apply (encodeURIComponent_nonempty _ _ Henc).
    + by apply (encodeURIComponent_no_slash _ _ Henc).
Qed.

Example roundtrip_pink_white :
  let c := {| date := lit "2025-07-09"; source := lit "spotify"; type := lit "music.play";
              slug := lit "pink+white / 50%"; full := [] |} in
  generateURI c = OK (lit "life://2025-07-09/spotify/music.play/pink%2Bwhite%20%2F%2050%25")
  /\ parseURI (lit "life://2025-07-09/spotify/music.play/pink%2Bwhite%20%2F%2050%25")
     = OK (with_full c (lit "life://2025-07-09/spotify/music.play/pink%2Bwhite%20%2F%2050%25")).
Proof. split; vm_compute; reflexivity. Qed.

(** C1, as stated, fails. The components below meet every condition of the
    claim, and the source holds a slash: [generateURI] inserts it as it is,
    and [parseURI] cuts the source there, so that source, type and slug all
    differ from the ones given. *)
Lemma roundtrip_breaks_on_slash_in_source :
  let c := {| date := lit "2025-07-09"; source := lit "a/b";
              type := lit "music.play"; slug := lit "x"; full := [] |} in
  (date c <> [] /\ source c <> [] /\ type c <> [] /\ slug c <> [] /\
   date_re (date c) = true /\ Forall (fun u => uriUnescaped u = true) (slug c)) /\
  generateURI c = OK (lit "life://2025-07-09/a/b/music.play/x") /\
  parseURI (lit "life://2025-07-09/a/b/music.play/x")
    = OK {| date := lit "2025-07-09"; source := lit "a"; type := lit "b";
            slug := lit "music.play/x";
            full := lit "life://2025-07-09/a/b/music.play/x" |} /\
  lit "a" <> source c /\ lit "b" <> type c /\ lit "music.play/x" <> slug c.
Proof. simpl. repeat split; compute_done. Qed.

(** C7. Whatever the number of slashes before the date, between two
    segments and after the slug, the parse is the parse of the URI with
    single slashes: it succeeds when that one does, with the same date,
    source, type and slug (and its own text as [full]), and it fails with
    the same error otherwise. *)
Theorem parse_discards_empty_segments (d src ty sl : jsstring) (n0 n1 n2 n3 n4 : nat) :
  segment d -> segment src -> segment ty -> segment sl ->
  let uri := lit "life://" ++ slashes n0 ++ d ++ slashes (S n1) ++ src
               ++ slashes (S n2) ++ ty ++ slashes (S n3) ++ sl ++ slashes n4 in
  parseURI uri = (c <- parseURI (life_uri d src ty sl);; OK (with_full c uri)).
Proof.
  intros Hd Hsrc Hty Hsl uri.
  rewrite parseURI_life_uri by done.
  unfold uri. rewrite parseURI_slashes by done.
  destruct (decodeURIComponent sl); [|done].
  simpl. by destruct (date_re d).
Qed.

Lemma parse_discards_empty_segments_witness :
  parseURI (lit "life://2025-07-09//spotify///music.play/x")
  = (c <- parseURI (lit "life://2025-07-09/spotify/music.play/x");;
     OK (with_full c (lit "life://2025-07-09//spotify///music.play/x")))
  /\ parseURI (lit "life://2025-07-09/spotify/music.play/x")
     = OK {| date := lit "2025-07-09"; source := lit "spotify"; type := lit "music.play";
             slug := lit "x"; full := lit "life://2025-07-09/spotify/music.play/x" |}.
Proof.
  split.
  - apply (parse_discards_empty_segments
             (lit "2025-07-09") (lit "spotify") (lit "music.play") (lit "x") 0 1 2 0 0);
      compute_done.
  - vm_compute. reflexivity.
Defined.

(** C8. The date check is syntactic: a dash at indices 4 and 7 of ten code
    units, digits elsewhere. In a URI of four segments whose slug decodes,
    the date segment 2025-13-40 is accepted and the date segment 25-7-9 is
    refused with the date-format error, a FormatError. *)
Theorem date_check_is_syntactic (src ty sl slug' : jsstring) :
  segment src -> segment ty -> segment sl ->
  decodeURIComponent sl = OK slug' ->
  parseURI (life_uri (lit "2025-13-40") src ty sl)
    = OK {| date := lit "2025-13-40"; source := src; type := ty; slug := slug';
            full := life_uri (lit "2025-13-40") src ty sl |}
  /\ parseURI (life_uri (lit "25-7-9") src ty sl) = Throw DateFormat
  /\ kind DateFormat = FormatError
  /\ (forall d, date_re d = true <->
        length d = 10%nat /\
        forall (i : nat) (c : N), d !! i = Some c ->
          if bool_decide (i = 4%nat \/ i = 7%nat) then c = chr "-" else is_digit c = true).
Proof.
  intros Hsrc Hty Hsl Hdec. repeat split.
  - rewrite parseURI_life_uri by (done || compute_done). by rewrite Hdec.
  - rewrite parseURI_life_uri by (done || compute_done). by rewrite Hdec.
  - by apply date_re_spec.
  - by apply date_re_spec.
  - by apply date_re_spec.
Qed.

Lemma date_check_is_syntactic_witness :
  parseURI (lit "life://2025-13-40/spotify/music.play/x")
    = OK {| date := lit "2025-13-40"; source := lit "spotify"; type := lit "music.play";
            slug := lit "x"; full := lit "life://2025-13-40/spotify/music.play/x" |}
  /\ parseURI (lit "life://25-7-9/spotify/music.play/x") = Throw DateFormat.
Proof.
  pose proof (date_check_is_syntactic (lit "spotify") (lit "music.play") (lit "x") (lit "x"))
    as Hw.
  destruct Hw as (Hok & Hbad & _); [compute_done..|].
  split; [exact Hok | exact Hbad].
Defined.

(** C9. Whenever [parseURI] succeeds, the date, source, type and slug it
    returns are non-empty, the date matches the date pattern, and [full] is
    the input. *)
Theorem parseURI_components_wellformed (uri : jsstring) (c : URIComponents) :
  parseURI uri = OK c ->
  date c <> [] /\ source c <> [] /\ type c <> [] /\ slug c <> [] /\
  date_re (date c) = true /\ full c = uri.
Proof.
  unfold parseURI. intros Hp.
  destruct (startsWith uri (lit "life://")); [|done]. cbn [negb] in Hp.
  destruct (length _ <? 4)%nat eqn:Hlen; [done|].
  destruct (filter _ _) as [|d [|src [|ty [|sl more]]]] eqn:Hparts; try done.
  destruct (decodeURIComponent _) as [slug'|] eqn:Hdec; [|done].
  unfold bind in Hp.
  destruct (date_re d) eqn:Hre; [|done]. cbn [negb] in Hp.
  injection Hp as <-. cbn [date source type slug full].
  assert (forall part, part ∈ [d; src; ty; sl] -> part <> []) as Hne.
  { intros part Hin.
    assert (part ∈ d :: src :: ty :: sl :: more) as Hin'.
    { change (part ∈ [d; src; ty; sl] ++ more). apply elem_of_app. by left. }
    rewrite <-Hparts in Hin'. apply list_elem_of_filter in Hin' as [Hpos _].
    destruct part; [simpl in Hpos; lia | done]. }
  assert (d <> [] /\ src <> [] /\ ty <> [] /\ sl <> []) as (? & ? & ? & ?).
  { repeat split; apply Hne; repeat constructor. }
  repeat split; try done.
  eapply decodeURIComponent_nonempty; [exact Hdec|].
  by apply join_nonempty.
Qed.

Lemma parseURI_components_wellformed_witness :
  let c := {| date := lit "2025-07-09"; source := lit "spotify"; type := lit "music.play";
              slug := lit "pink+white";
              full := lit "life://2025-07-09/spotify/music.play/pink%2Bwhite" |} in
  date c <> [] /\ source c <> [] /\ type c <> [] /\ slug c <> [] /\
  date_re (date c) = true /\
  full c = lit "life://2025-07-09/spotify/music.play/pink%2Bwhite".
Proof.
  apply (parseURI_components_wellformed
           (lit "life://2025-07-09/spotify/music.play/pink%2Bwhite")).
  vm_compute. reflexivity.
Defined.

(** ** More on the codec *)

(** No part that [split] returns holds the separator. *)
Lemma split_parts_no_sep (sep : N) (s p : jsstring) :
  p ∈ split sep s -> sep ∉ p.
Proof.
  revert p. induction s as [|c s IH]; intros p Hp; simpl in Hp.
  - apply list_elem_of_singleton in Hp as ->. apply not_elem_of_nil.
  - destruct (N.eqb_spec c sep) as [->|Hc].
    + apply elem_of_cons in Hp as [->|Hp]; [apply not_elem_of_nil|by apply IH].
    + destruct (split sep s) as [|w ws] eqn:Hsplit.
      * apply list_elem_of_singleton in Hp as ->.
        apply not_elem_of_cons. split; [done|apply not_elem_of_nil].
      * apply elem_of_cons in Hp as [->|Hp].
        -- apply not_elem_of_cons. split; [done|]. apply IH. by left.
        -- apply IH. by right.
Qed.

(** The parts of a string of code units are strings of code units. *)
Lemma split_parts_code_units (sep : N) (s p : jsstring) :
  code_units s -> p ∈ split sep s -> code_units p.
Proof.
  unfold code_units. revert p. induction s as [|c s IH]; intros p Hs Hp; simpl in Hp.
  - by apply list_elem_of_singleton in Hp as ->.
  - apply Forall_cons_1 in Hs as [Hc Hs].
    destruct (c =? sep)%N.
    + apply elem_of_cons in Hp as [->|Hp]; [done|by apply IH].
    + destruct (split sep s) as [|w ws] eqn:Hsplit.
      * apply list_elem_of_singleton in Hp as ->. by repeat constructor.
      * apply elem_of_cons in Hp as [->|Hp].
        -- constructor; [done|]. apply IH; [done|by left].
        -- apply IH; [done|by right].
Qed.

Lemma join_code_units (sep : jsstring) (parts : list jsstring) :
  code_units sep -> Forall code_units parts -> code_units (join sep parts).
Proof.
  unfold code_units. intros Hsep Hparts.
  induction Hparts as [|x xs Hx Hxs IH]; [done|].
  cbn [join]. destruct xs; [done|]. by rewrite !Forall_app.
Qed.

Lemma hex_value_lt (c n : N) : hex_value c = Some n -> (n < 16)%N.
Proof.
  unfold hex_value, is_digit.
  change (chr "0") with 48%N. change (chr "9") with 57%N.
  change (chr "A") with 65%N. change (chr "F") with 70%N.
  change (chr "a") with 97%N. change (chr "f") with 102%N.
  repeat case_match; intros [= <-];
    repeat match goal with
           | Hb : (_ && _) = true |- _ => apply andb_true_iff in Hb as [? ?]
           | Hb : (_ <=? _)%N = true |- _ => apply N.leb_le in Hb
           end; lia.
Qed.

(** Booleans of comparisons, as propositions. *)
Ltac tests_to_props :=
  repeat match goal with
         | Hb : (_ && _) = true |- _ => apply andb_true_iff in Hb as [? ?]
         | Hb : negb _ = true |- _ => apply negb_true_iff in Hb
         | Hb : negb _ = false |- _ => apply negb_false_iff in Hb
         | Hb : (_ <=? _)%N = true |- _ => apply N.leb_le in Hb
         | Hb : (_ <=? _)%N = false |- _ => apply N.leb_gt in Hb
         | Hb : (_ <? _)%N = true |- _ => apply N.ltb_lt in Hb
         | Hb : (_ <? _)%N = false |- _ => apply N.ltb_ge in Hb
         | Hb : (_ =? _)%N = true |- _ => apply N.eqb_eq in Hb
         | Hb : hex_value _ = Some _ |- _ => apply hex_value_lt in Hb
         end.

(** What [decodeURIComponent] returns is a string of code units when its
    argument is one. *)
Lemma decodeURIComponent_code_units (s r : jsstring) :
  code_units s -> decodeURIComponent s = OK r -> code_units r.
Proof.
  unfold code_units.
  remember (length s) as n eqn:Hn. revert s r Hn.
  induction n as [n IH] using (well_founded_induction lt_wf).
  intros s r -> Hs Hdec.
  destruct s as [|c rest]; [by injection Hdec as <-|].
  cbn [decodeURIComponent] in Hdec.
  unfold decode_sequence, with_continuation, with_octet, decoded, utf8_code_point,
    utf16_units, bind in Hdec.
  repeat case_match; simplify_eq;
    repeat match goal with
           | Hf : Forall _ (_ :: _) |- _ => apply Forall_cons_1 in Hf as [? Hf]
           end;
    match goal with
    | Htail : decodeURIComponent ?t = OK ?r' |- _ =>
        assert (Forall (fun c => (c < 65536)%N) r')
          by (eapply (IH (length t)); [simpl; lia|reflexivity|done|exact Htail])
    end;
    tests_to_props;
    repeat match goal with
           | |- Forall _ (_ ++ _) => apply Forall_app; split
           | |- Forall _ (_ :: _) => constructor
           | |- Forall _ [] => constructor
           end;
    try done; zify; Z.to_euclidean_division_equations; lia.
Qed.

Ltac div_lia := zify; Z.to_euclidean_division_equations; lia.

(** [encodeURIComponent] throws nothing but the [URIError]. *)
Lemma encodeURIComponent_error (s : jsstring) (e : LifeError) :
  encodeURIComponent s = Throw e -> e = Runtime MalformedURI.
Proof.
  remember (length s) as n eqn:Hn. revert s Hn.
  induction n as [n IH] using (well_founded_induction lt_wf).
  intros s -> Henc.
  destruct s as [|c rest]; [done|].
  cbn [encodeURIComponent] in Henc. unfold bind in Henc.
  repeat case_match; simplify_eq; try done;
    match goal with
    | Htail : encodeURIComponent ?t = Throw _ |- _ =>
        eapply (IH (length t)); [simpl; lia|reflexivity|exact Htail]
    end.
Qed.

Lemma utf8_octets_bound (cp : N) :
  (cp < 0x110000)%N -> Forall (fun b => (b < 256)%N) (utf8_octets cp).
Proof.
  intros Hcp. unfold utf8_octets.
  repeat case_match; tests_to_props; repeat constructor; div_lia.
Qed.

Lemma hex_digit_unescaped (n : N) : (n < 16)%N -> uriUnescaped (hex_digit n) = true.
Proof.
  intros Hn.
  by apply (all_below_spec 16 (fun n => uriUnescaped (hex_digit n))) in Hn.
Qed.

(** The escapes of a code point are percent signs and hexadecimal digits. *)
Lemma escape_code_point_chars (cp : N) :
  (cp < 0x110000)%N ->
  Forall (fun x => uriUnescaped x = true \/ x = chr "%") (escape_code_point cp).
Proof.
  intros Hcp%utf8_octets_bound. unfold escape_code_point.
  induction Hcp as [|b octets Hb _ IH]; cbn [map concat]; [done|].
  apply Forall_app. split; [|done]. unfold percent_octet.
  constructor; [by right|].
  constructor; [left; apply hex_digit_unescaped; div_lia|].
  constructor; [left; apply hex_digit_unescaped; div_lia|constructor].
Qed.

(** The text [encodeURIComponent] returns holds nothing but the unescaped
    characters and the percent sign. *)
Lemma encodeURIComponent_chars (s e : jsstring) :
  code_units s -> encodeURIComponent s = OK e ->
  Forall (fun x => uriUnescaped x = true \/ x = chr "%") e.
Proof.
  intros Hs Henc. revert Hs.
  apply (encodeURIComponent_cases
           (fun s e => code_units s ->
                       Forall (fun x => uriUnescaped x = true \/ x = chr "%") e))
    with (s := s) (e := e); [| | | |done]; clear s e Henc; unfold code_units.
  - done.
  - intros c rest r Hc _ IH [_ Hrest]%Forall_cons_1.
    constructor; [by left|by apply IH].
  - intros c d rest r _ Hc%is_lead_spec Hd%is_trail_spec _ IH
      [_ [_ Hrest]%Forall_cons_1]%Forall_cons_1.
    apply Forall_app. split; [|by apply IH].
    apply escape_code_point_chars. unfold pair_code_point. div_lia.
  - intros c rest r _ _ _ _ IH [Hc Hrest]%Forall_cons_1.
    apply Forall_app. split; [|by apply IH].
    apply escape_code_point_chars. lia.
Qed.

(** What [parseURI] read, when it succeeds. *)
Lemma parseURI_inv (uri : jsstring) (c : URIComponents) :
  parseURI uri = OK c ->
  exists sl more,
    startsWith uri (lit "life://") = true /\
    segments (substring uri 6) = date c :: source c :: type c :: sl :: more /\
    decodeURIComponent (join (lit "/") (sl :: more)) = OK (slug c) /\
    date_re (date c) = true /\ full c = uri.
Proof.
  unfold parseURI. intros Hp.
  destruct (startsWith uri (lit "life://")); [|done]. cbn [negb] in Hp.
  destruct (length _ <? 4)%nat eqn:Hlen; [done|].
  destruct (filter _ _) as [|d [|src [|ty [|sl more]]]] eqn:Hparts; try done.
  destruct (decodeURIComponent _) as [slug'|] eqn:Hdec; [|done].
  unfold bind in Hp.
  destruct (date_re d) eqn:Hre; [|done]. cbn [negb] in Hp.
  injection Hp as <-. by exists sl, more.
Qed.

Lemma segments_elem (s part : jsstring) : part ∈ segments s -> segment part.
Proof.
  intros [Hlen Hin]%list_elem_of_filter. split.
  - destruct part; [simpl in Hlen; lia|done].
  - by eapply split_parts_no_sep.
Qed.

(** X1. Whenever [parseURI] succeeds, its date, source and type are
    segments, non-empty and without a slash (the slug alone can hold
    slashes), and its slug is a string of code units when the URI is one. *)
Theorem parseURI_components_are_segments (uri : jsstring) (c : URIComponents) :
  parseURI uri = OK c ->
  segment (date c) /\ segment (source c) /\ segment (type c) /\
  (code_units uri -> code_units (slug c)).
Proof.
  intros (sl & more & Hs & Hparts & Hdec & Hre & Hfull)%parseURI_inv.
  assert (forall part, part ∈ date c :: source c :: type c :: sl :: more ->
                       part ∈ segments (substring uri 6)) as Hin
    by (intros part; by rewrite Hparts).
  split; [|split; [|split]].
  - apply (segments_elem (substring uri 6)), Hin. by repeat constructor.
  - apply (segments_elem (substring uri 6)), Hin. by repeat constructor.
  - apply (segments_elem (substring uri 6)), Hin. by repeat constructor.
  - intros Huri. apply (decodeURIComponent_code_units _ _) in Hdec; [done|].
    apply join_code_units; [by repeat constructor|].
    apply list.Forall_forall. intros part Hpart.
    assert (part ∈ segments (substring uri 6)) as [_ Hsplit]%list_elem_of_filter.
    { apply Hin. by do 3 right. }
    eapply split_parts_code_units; [|exact Hsplit].
    unfold substring, code_units. by apply Forall_drop.
Qed.


(** What [generateURI] did, when it succeeds. *)
Lemma generateURI_inv (c : URIComponents) (uri : jsstring) :
  generateURI c = OK uri ->
  date c <> [] /\ source c <> [] /\ type c <> [] /\ slug c <> [] /\
  date_re (date c) = true /\
  exists e, encodeURIComponent (slug c) = OK e /\
            uri = life_uri (date c) (source c) (type c) e.
Proof.
  unfold generateURI.
  destruct (date c) as [|d0 d] eqn:Hd; [done|].
  destruct (source c) as [|s0 src] eqn:Hsrc; [done|].
  destruct (type c) as [|t0 ty] eqn:Hty; [done|].
  destruct (slug c) as [|l0 sl] eqn:Hsl; [done|].
  cbn [str_falsy orb].
  destruct (date_re (d0 :: d)) eqn:Hre; [|done]. cbn [negb].
  destruct (encodeURIComponent (l0 :: sl)) as [e|] eqn:Henc; [|done].
  cbn [bind]. intros Huri.
  do 5 (split; [done|]). exists e. split; [done|].
  unfold life_uri. congruence.
Qed.

(** X2. The URI that [generateURI] returns is the scheme, the date, the
    source and the type as given, and the escaped slug, which is not empty
    and holds nothing but unescaped characters and percent signs: no slash,
    whatever the slug held. *)
Theorem generateURI_escapes_slug (c : URIComponents) (uri : jsstring) :
  code_units (slug c) -> generateURI c = OK uri ->
  exists e,
    uri = life_uri (date c) (source c) (type c) e /\
    e <> [] /\
    Forall (fun x => uriUnescaped x = true \/ x = chr "%") e /\
    decodeURIComponent e = OK (slug c).
Proof.
  intros Hcu (_ & _ & _ & Hsl & _ & e & Henc & ->)%generateURI_inv.
  exists e. split; [done|]. split; [|split].
  - by apply (encodeURIComponent_nonempty _ _ Henc).
  - by apply (encodeURIComponent_chars (slug c)).
  - by apply decodeURIComponent_encodeURIComponent.
Qed.

(** X3. [generateURI] throws exactly three errors, in this precedence:
    the one for missing components when one of the four fields is the
    empty string; the one for the date when the four fields are not empty
    and the date is malformed; the runtime's [URIError] when the four
    fields are not empty, the date is well formed and [encodeURIComponent]
    fails on the slug. It throws nothing else, and in each of these cases
    it throws that error. *)
Theorem generateURI_errors (c : URIComponents) (e : LifeError) :
  generateURI c = Throw e <->
  (e = MissingComponents /\
   (date c = [] \/ source c = [] \/ type c = [] \/ slug c = [])) \/
  (e = DateFormat /\ date c <> [] /\ source c <> [] /\ type c <> [] /\ slug c <> [] /\
   date_re (date c) = false) \/
  (e = Runtime MalformedURI /\
   date c <> [] /\ source c <> [] /\ type c <> [] /\ slug c <> [] /\
   date_re (date c) = true /\ encodeURIComponent (slug c) = Throw e).
Proof.
  unfold generateURI. split.
  - destruct (date c) as [|d0 d]; [intros [= <-]; left; split; [done|by left]|].
    destruct (source c) as [|s0 src]; [intros [= <-]; left; split; [done|by right; left]|].
    destruct (type c) as [|t0 ty];
      [intros [= <-]; left; split; [done|by right; right; left]|].
    destruct (slug c) as [|l0 sl];
      [intros [= <-]; left; split; [done|by right; right; right]|].
    cbn [str_falsy orb].
    destruct (date_re (d0 :: d)) eqn:Hre; cbn [negb].
    + destruct (encodeURIComponent (l0 :: sl)) as [enc|e'] eqn:Henc; [done|].
      cbn [bind]. intros [= <-]. right; right.
      rewrite (encodeURIComponent_error _ _ Henc) in *.
      by repeat (split; [done|]).
    + intros [= <-]. right; left. by repeat (split; [done|]).
  - intros [ [-> Hempty] | [ (-> & Hd & Hs & Ht & Hl & Hre)
                           | (-> & Hd & Hs & Ht & Hl & Hre & Henc) ] ].
    + destruct Hempty as [-> | [-> | [-> | ->] ] ]; cbn [str_falsy orb];
        by rewrite ?orb_true_r.
    + rewrite !str_falsy_nonempty by done. cbn [orb]. by rewrite Hre.
    + rewrite !str_falsy_nonempty by done. cbn [orb]. by rewrite Hre, Henc.
Qed.


Lemma segments_path_after (a : jsstring) (parts : list (nat * jsstring)) :
  segment a -> Forall (fun np => segment np.2) parts ->
  segments (a ++ path_after parts) = a :: map snd parts.
Proof.
  intros Ha Hparts. revert a Ha.
  induction Hparts as [|[n p] parts Hp _ IH]; intros a Ha.
  - unfold path_after. cbn [map concat]. rewrite app_nil_r. by apply segments_last.
  - unfold path_after. cbn [map concat fst snd]. rewrite <- (assoc_L (++)).
    rewrite segments_app_slashes by done. f_equal. by apply IH.
Qed.

(** X5. Segments after the fourth belong to the slug: [parseURI] joins
    them with single slashes, whatever the runs of slashes between them
    were, and decodes the joined text. *)
Theorem parseURI_joins_slug_segments
    (d src ty p : jsstring) (more : list (nat * jsstring)) :
  segment d -> segment src -> segment ty -> segment p ->
  Forall (fun np => segment np.2) more ->
  let uri := life_uri d src ty (p ++ path_after more) in
  parseURI uri =
    (slug <- decodeURIComponent (join (lit "/") (p :: map snd more));;
     if negb (date_re d) then Throw DateFormat
     else OK {| date := d; source := src; type := ty; slug := slug; full := uri |}).
Proof.
  intros Hd Hsrc Hty Hp Hmore uri.
  apply (parseURI_parts uri d src ty p (map snd more)).
  - apply startsWith_app.
  - unfold uri, life_uri. rewrite substring_scheme, segments_slash.
    change (lit "/") with (slashes 1).
    rewrite !segments_app_slashes by done.
    by rewrite segments_path_after.
Qed.



Lemma uriUnescaped_ascii (c : N) : uriUnescaped c = true -> (c < 128)%N.
Proof.
  intros Hc. destruct (N.ltb_spec c 128) as [|Hge]; [done|]. exfalso.
  unfold uriUnescaped, is_lower, is_upper, is_digit, lit in Hc.
  cbn [list_ascii_of_string map existsb] in Hc.
  repeat match type of Hc with (_ || _) = true => apply orb_true_iff in Hc as [Hc|Hc] end;
    tests_to_props; try done; subst.
  all: try (vm_compute in Hge; by apply Hge).
  all: try (change (chr "z") with 122%N in *; lia).
  all: try (change (chr "Z") with 90%N in *; lia).
  all: try (change (chr "9") with 57%N in *; lia).
Qed.

Lemma uriUnescaped_not_surrogate (c : N) :
  uriUnescaped c = true -> is_lead c = false /\ is_trail c = false.
Proof.
  intros Hc%uriUnescaped_ascii. unfold is_lead, is_trail.
  split; apply andb_false_iff; left; apply N.leb_gt; lia.
Qed.

(** [encodeURIComponent] succeeds exactly on the well-formed strings. *)
Lemma encodeURIComponent_well_formed (s : jsstring) :
  well_formed s = true <-> exists e, encodeURIComponent s = OK e.
Proof.
  remember (length s) as n eqn:Hn. revert s Hn.
  induction n as [n IH] using (well_founded_induction lt_wf).
  intros s ->.
  destruct s as [|c rest]; [split; [by exists []|done]|].
  cbn [encodeURIComponent well_formed].
  destruct (uriUnescaped c) eqn:Hun.
  - destruct (uriUnescaped_not_surrogate c Hun) as [-> ->].
    rewrite (IH (length rest)) by (simpl; lia || done).
    destruct (encodeURIComponent rest) as [r|err]; cbn [bind];
      [split; intros _; by eexists|done].
  - destruct (is_trail c); [split; [done|by intros [e He]]|].
    destruct (is_lead c).
    + destruct rest as [|d rest']; [split; [done|by intros [e He]]|].
      destruct (is_trail d); cbn [andb]; [|split; [done|by intros [e He]]].
      rewrite (IH (length rest')) by (simpl; lia || done).
      destruct (encodeURIComponent rest') as [r|err]; cbn [bind];
      [split; intros _; by eexists|done].
    + rewrite (IH (length rest)) by (simpl; lia || done).
      destruct (encodeURIComponent rest) as [r|err]; cbn [bind];
      [split; intros _; by eexists|done].
Qed.

(** X7. The round trip for every slug: for components whose date is
    well-formed, whose source and type are not empty and hold no slash, and
    whose slug is a non-empty string without lone surrogate, [generateURI]
    succeeds and [parseURI] of its URI gives the four components back,
    whatever characters the slug holds (spaces, slashes, percent signs,
    characters outside ASCII). *)
Theorem generate_parse_roundtrip_every_slug (c : URIComponents) :
  date_re (date c) = true -> segment (source c) -> segment (type c) ->
  slug c <> [] -> code_units (slug c) -> well_formed (slug c) = true ->
  exists uri, generateURI c = OK uri /\ parseURI uri = OK (with_full c uri).
Proof.
  intros Hre [Hsrc Hs1] [Hty Hs2] Hsl Hcu [e Henc]%encodeURIComponent_well_formed.
  assert (generateURI c = OK (life_uri (date c) (source c) (type c) e)) as Hgen.
  { unfold generateURI.
    rewrite !str_falsy_nonempty by (done || by apply date_re_nonempty).
    cbn [orb]. rewrite Hre. cbn [negb]. by rewrite Henc. }
  eexists. split; [exact Hgen|].
  by apply generate_parse_roundtrip_any_slug.
Qed.

(** Three segments and a slash are one segment short. *)
Lemma life_uri_empty_slug (d src ty : jsstring) :
  segment d -> segment src -> segment ty ->
  parseURI (life_uri d src ty []) = Throw URISegments.
Proof.
  intros Hd Hsrc Hty. unfold parseURI, life_uri.
  rewrite startsWith_app. cbn [negb].
  rewrite substring_scheme, segments_slash.
  change (lit "/") with (slashes 1).
  rewrite !segments_app_slashes by done.
  by rewrite segments_nil.
Qed.

(** ** The validators and the resolution *)

Section EventProperties.
Context `{Engine}.

(** A registration replaces the callback of its source and leaves the other
    sources alone. *)
Lemma registerResolver_last_wins
    (this this1 this2 : LifeURIResolver) (source : jsstring) (f g : Resolver) :
  registerResolver this source (Function f) = OK this1 ->
  registerResolver this1 source (Function g) = OK this2 ->
  resolvers this2 !! source = Some g /\
  forall other, other <> source -> resolvers this2 !! other = resolvers this !! other.
Proof.
  intros [= <-] [= <-]. cbn [resolvers]. split.
  - apply lookup_insert_eq.
  - intros other Hother. by rewrite !lookup_insert_ne.
Qed.

Lemma hasResolver_registered (this this1 : LifeURIResolver) (source : jsstring) (f : Resolver) :
  registerResolver this source (Function f) = OK this1 -> hasResolver this1 source = true.
Proof.
  intros [= <-]. unfold hasResolver. cbn [resolvers].
  apply bool_decide_eq_true. rewrite lookup_insert_eq. by eexists.
Qed.

(** On an object the validator is its rules on the seven fields. *)
Lemma validateLifeEvent_object (o : gmap jsstring JsVal) :
  validateLifeEvent (VObj o) =
  validate_fields (field o "timestamp") (field o "source") (field o "type")
    (field o "title") (field o "linked_uris") (field o "mood") (field o "duration").
Proof.
  unfold validateLifeEvent, validate_fields, REQUIRED, field.
  cbn [check_required get bind].
  destruct (truthy (default VUndefined (o !! lit "timestamp"))); [|done].
  destruct (truthy (default VUndefined (o !! lit "source"))); [|done].
  destruct (truthy (default VUndefined (o !! lit "type"))); [|done].
  destruct (truthy (default VUndefined (o !! lit "title"))); done.
Qed.

(** A value that converts is shown by its text; one that does not stops
    the throw of the error it was to be shown in. *)
Lemma ToString_converts (v : JsVal) : converts v = true -> ToString v = OK (text v).
Proof. unfold ToString. by intros ->. Qed.

Lemma ToString_faults (v : JsVal) :
  converts v = false -> ToString v = Throw (Runtime (NotPrimitive v)).
Proof. unfold ToString. by intros ->. Qed.

Lemma throw_shown_converts (c : bool) (v : JsVal) (e : LifeError) :
  converts v = true -> throw_shown c v e = throw_if c e.
Proof. intros Hv. unfold throw_shown. rewrite (ToString_converts v Hv). by destruct c. Qed.

Lemma throw_shown_faults (v : JsVal) (e : LifeError) :
  converts v = false -> throw_shown true v e = Throw (Runtime (NotPrimitive v)).
Proof. intros Hv. unfold throw_shown. by rewrite (ToString_faults v Hv). Qed.

Lemma test_shown_matches (re : jsstring -> bool) (v : JsVal) (e : LifeError) :
  shown_matches re v -> test_shown re v e = OK tt.
Proof.
  intros (shown & Hshown & Hre). unfold test_shown.
  rewrite Hshown. cbn [bind]. by rewrite Hre.
Qed.

(** A Number without denominator is the integer of its numerator. *)
Lemma Qc_integer (q : Qc) : Qden q = 1%positive -> q = Qc_of_Z (Qnum q).
Proof.
  intros Hden. apply Qc_is_canon. destruct q as [[n d] Hq].
  simpl in *. by subst.
Qed.

(** The test of the mood rule accepts the integers from 1 to 10 and nothing
    else. *)
Lemma mood_test_spec (m : JsVal) :
  negb (Number_isInteger m) || lt_lit m 1 || gt_lit m 10 = false
  <-> integer_between 1 10 m.
Proof.
  unfold integer_between, num. split.
  - intros Ht. apply orb_false_iff in Ht as [Ht Hgt].
    apply orb_false_iff in Ht as [Hint Hlt].
    apply negb_false_iff in Hint.
    destruct m as [| | |[| |q]| | |]; try done.
    unfold Number_isInteger in Hint. apply Pos.eqb_eq, Qc_integer in Hint.
    unfold lt_lit, gt_lit in *. cbn [number num_lt] in Hlt, Hgt.
    apply bool_decide_eq_false in Hlt, Hgt.
    exists (Qnum q). split; [|by rewrite <-Hint].
    rewrite Hint in Hlt, Hgt.
    rewrite <-Z2Qc_inj_lt in Hlt, Hgt. lia.
  - intros (z & Hz & ->).
    unfold lt_lit, gt_lit. cbn [number num_lt Number_isInteger Qc_of_Z this inject_Z Qden].
    rewrite !bool_decide_eq_false_2; [done| |]; rewrite <-Z2Qc_inj_lt; lia.
Qed.

(** What the mood rule decides once every other rule passes. *)
Lemma validateLifeEvent_with_mood (o : gmap jsstring JsVal) (m : JsVal) :
  o !! lit "mood" = Some m -> m <> VUndefined ->
  validateLifeEvent (VObj (delete (lit "mood") o)) = OK tt ->
  validateLifeEvent (VObj o) =
    throw_shown (negb (Number_isInteger m) || lt_lit m 1 || gt_lit m 10) m (BadMood m).
Proof.
  intros Hm Hdef Hrest.
  rewrite validateLifeEvent_object in Hrest |- *.
  unfold field in *.
  rewrite lookup_delete_eq in Hrest.
  rewrite !lookup_delete_ne in Hrest by done.
  rewrite Hm. change (default VUndefined (Some m)) with m.
  change (default VUndefined None) with VUndefined in Hrest.
  unfold validate_fields in *.
  repeat match type of Hrest with
         | bind ?stage _ = OK tt =>
             destruct stage as [[]|]; [cbn [bind] in Hrest |- *|done]
         end.
  rewrite Hrest. clear Hrest.
  assert (is_undefined m = false) as -> by (by destruct m).
  cbn [negb]. by destruct (throw_shown _ _ _) as [[]|].
Qed.

(** A mood that does not convert is not an integer, and the rule faults
    on it while it builds its message. *)
Lemma mood_without_text_faults (o : gmap jsstring JsVal) (m : JsVal) :
  o !! lit "mood" = Some m -> converts m = false ->
  validateLifeEvent (VObj (delete (lit "mood") o)) = OK tt ->
  validateLifeEvent (VObj o) = Throw (Runtime (NotPrimitive m)).
Proof.
  intros Hm Hconv Hrest.
  rewrite (validateLifeEvent_with_mood o m); [|done|by destruct m|done].
  assert (Number_isInteger m = false) as -> by (by destruct m as [| | |[| |q]| | |]).
  by apply throw_shown_faults.
Qed.

(** C6, as amended. For an object that holds a mood (a value other than
    [undefined]) and passes every other rule, the validation succeeds when
    the mood is an integer from 1 to 10, among them 1 and 10; for every
    other mood that converts to a string, among them 0 and 11, it fails
    with the mood error, a RangeError. *)
Theorem mood_boundary (o : gmap jsstring JsVal) (m : JsVal) :
  o !! lit "mood" = Some m -> m <> VUndefined ->
  validateLifeEvent (VObj (delete (lit "mood") o)) = OK tt ->
  (integer_between 1 10 m -> validateLifeEvent (VObj o) = OK tt) /\
  (~ integer_between 1 10 m -> converts m = true ->
     validateLifeEvent (VObj o) = Throw (BadMood m) /\ kind (BadMood m) = RangeError) /\
  integer_between 1 10 (num 1) /\ integer_between 1 10 (num 10) /\
  ~ integer_between 1 10 (num 0) /\ ~ integer_between 1 10 (num 11) /\
  converts (num 0) = true /\ converts (num 11) = true.
Proof.
  intros Hm Hdef Hrest.
  rewrite (validateLifeEvent_with_mood o m) by done.
  split; [|split; [|split; [|split; [|split; [|split; [|split]]]]]].
  - intros Hin. assert (converts m = true) as Hconv by (by destruct Hin as (z & _ & ->)).
    rewrite throw_shown_converts by done.
    apply mood_test_spec in Hin. by rewrite Hin.
  - intros Hout Hconv. rewrite throw_shown_converts by done.
    split; [|done]. destruct (_ || _ || _) eqn:Ht; [done|].
    by apply mood_test_spec in Ht.
  - exists 1%Z. split; [lia|done].
  - exists 10%Z. split; [lia|done].
  - intros (z & Hz & Heq). injection Heq as Heq. lia.
  - intros (z & Hz & Heq). injection Heq as Heq. lia.
  - done.
  - done.
Qed.

(** A falsy title (absent, or null, false, 0, NaN, the empty string) is
    reported by the presence check, before the rule on its form is reached. *)
Lemma falsy_title_is_missing (o : gmap jsstring JsVal) :
  head_valid o -> truthy (field o "title") = false ->
  validateLifeEvent (VObj o) = Throw (MissingField (lit "title")).
Proof.
  intros (Hts & Hsrc & Hty & _) Htitle.
  rewrite validateLifeEvent_object. unfold validate_fields.
  by rewrite Hts, Hsrc, Hty, Htitle.
Qed.

(** What the title rule decides on a truthy title that is not a string,
    once timestamp, source and type have passed: the title error when the
    title converts, and the fault of the conversion when it does not. *)
Lemma validateLifeEvent_with_title (o : gmap jsstring JsVal) (t : JsVal) :
  head_valid o -> o !! lit "title" = Some t -> truthy t = true ->
  (forall s, t <> VStr s) ->
  validateLifeEvent (VObj o) = (ToString t;;; Throw (BadTitle t)).
Proof.
  intros (Hts & Hsrc & Hty & Htsre & Htyre & Hsrcstr) Ht Htruthy Hnostr.
  assert (field o "title" = t) as Hfield by (unfold field; by rewrite Ht).
  rewrite validateLifeEvent_object. unfold validate_fields.
  rewrite Hfield, Hts, Hsrc, Hty, Hsrcstr, Htruthy.
  rewrite !test_shown_matches by done.
  assert (not_nonempty_string t = true) as ->.
  { destruct t as [| | | |s| |]; try done. by destruct (Hnostr s). }
  cbn [negb throw_if throw_shown bind].
  by destruct (ToString t).
Qed.

(** C3, as amended. For an object whose timestamp, source and type are
    present and valid: when the title is absent, the validation fails with
    the missing-field error that names title, a MissingFieldError; when the
    title is present, truthy, not a string, and converts to a string, it
    fails with the title error, a FormatError. *)
Theorem title_rule (o : gmap jsstring JsVal) :
  head_valid o ->
  (o !! lit "title" = None ->
     validateLifeEvent (VObj o) = Throw (MissingField (lit "title")) /\
     kind (MissingField (lit "title")) = MissingFieldError) /\
  (forall t, o !! lit "title" = Some t -> truthy t = true -> (forall s, t <> VStr s) ->
     converts t = true ->
     validateLifeEvent (VObj o) = Throw (BadTitle t) /\
     kind (BadTitle t) = FormatError).
Proof.
  intros Hhead. split.
  - intros Habs. split; [|done]. apply falsy_title_is_missing; [done|].
    unfold field. by rewrite Habs.
  - intros t Ht Htruthy Hnostr Hconv. split; [|done].
    rewrite (validateLifeEvent_with_title o t) by done.
    by rewrite (ToString_converts t Hconv).
Qed.

(** An object with a truthy value that is not an array under [linked_uris]
    is validated as if the field were not there. *)
Lemma non_array_linked_uris_ignored (o : gmap jsstring JsVal) :
  Array_isArray (field o "linked_uris") = false ->
  validateLifeEvent (VObj o) = validateLifeEvent (VObj (delete (lit "linked_uris") o)).
Proof.
  intros Harr. rewrite !validateLifeEvent_object.
  unfold field in *. rewrite lookup_delete_eq.
  rewrite !lookup_delete_ne by done.
  unfold validate_fields. rewrite Harr, andb_false_r. done.
Qed.

(** In an array of strings the first one without the prefix is reported. *)
Lemma check_linked_uris_strings (before : list jsstring) (bad : jsstring) (after : list JsVal) :
  Forall (fun s => startsWith s (lit "life://") = true) before ->
  startsWith bad (lit "life://") = false ->
  check_linked_uris (map VStr before ++ VStr bad :: after) = Throw (BadLinkedURI (VStr bad)).
Proof.
  intros Hbefore Hbad.
  induction Hbefore as [|s before Hs _ IH];
    cbn [map app check_linked_uris call_startsWith bind].
  - by rewrite Hbad.
  - by rewrite Hs.
Qed.

Lemma check_linked_uris_all_prefixed (uris : list jsstring) :
  Forall (fun s => startsWith s (lit "life://") = true) uris ->
  check_linked_uris (map VStr uris) = OK tt.
Proof.
  induction 1 as [|s uris Hs _ IH];
    cbn [map check_linked_uris call_startsWith bind]; [done|].
  by rewrite Hs.
Qed.

(** C2: the code departs from the claim. The sample event passes every
    rule; with a value that is not a sequence under [linked_uris] (a
    string, a number, a boolean, an object) it is still accepted by
    [validateLifeEvent], while the command-line validator reports it
    ('linked_uris must be an array'). *)
Theorem linked_uris_not_a_sequence_is_accepted :
  Forall (fun linked_uris =>
            let event := VObj (sample_with [prop "linked_uris" linked_uris]) in
            validateLifeEvent event = OK tt /\
            validateLinkedURIs event [] = OK [lit "linked_uris must be an array"])
    [str "journal/midyear-reflection"; num 42; VBool true;
     obj [prop "0" (str "https://example.org/")]].
Proof. repeat constructor; vm_compute; reflexivity. Qed.

(** An element that is not a string stops the loop with a fault of the
    runtime, not with the linked-URI error. *)
Lemma linked_uri_not_a_string (v : JsVal) (rest : list JsVal) :
  (forall s, v <> VStr s) ->
  exists f, check_linked_uris (v :: rest) = Throw (Runtime f).
Proof.
  intros Hv. destruct v as [| | | |s| |]; simpl; eauto. by destruct (Hv s).
Qed.

(** C4. When the URI parses, its source has a registered callback, and the
    value the callback resolves to fails the validation with some error,
    [resolveURI] fails with the resolution error made of the URI and of
    the message of that error, a ResolutionError; for an object without a
    truthy timestamp the wrapped error is the missing-field error that
    names timestamp. *)
Theorem resolve_wraps_validation_failure
    (this : LifeURIResolver) (uri : jsstring) (parsed : URIComponents)
    (resolver : Resolver) (event : JsVal) (error : LifeError) :
  parseURI uri = OK parsed ->
  resolvers this !! source parsed = Some resolver ->
  resolver parsed = Resolved event ->
  validateLifeEvent event = Throw error ->
  resolveURI this uri = Throw (ResolveFailed uri (message error)) /\
  kind (ResolveFailed uri (message error)) = ResolutionError /\
  message (ResolveFailed uri (message error))
    = lit "Failed to resolve URI " ++ uri ++ lit ": " ++ message error /\
  (forall o, event = VObj o -> truthy (field o "timestamp") = false ->
     error = MissingField (lit "timestamp") /\ kind error = MissingFieldError).
Proof.
  intros Hparse Hlookup Hcall Hinvalid.
  split; [|split; [done|split; [done|]]].
  - unfold resolveURI. rewrite Hparse. cbn [bind].
    by rewrite Hlookup, Hcall, Hinvalid.
  - intros o -> Hfalsy. rewrite validateLifeEvent_object in Hinvalid.
    unfold validate_fields in Hinvalid. rewrite Hfalsy in Hinvalid.
    by injection Hinvalid as <-.
Qed.

(** C5. When the URI parses and the registry holds no callback for its
    source, [resolveURI] fails with the no-resolver error that names the
    source, a ResolverNotFoundError. *)
Theorem resolve_unknown_source
    (this : LifeURIResolver) (uri : jsstring) (parsed : URIComponents) :
  parseURI uri = OK parsed ->
  resolvers this !! source parsed = None ->
  resolveURI this uri = Throw (NoResolver (source parsed)) /\
  kind (NoResolver (source parsed)) = ResolverNotFoundError /\
  message (NoResolver (source parsed))
    = lit "No resolver registered for source: " ++ source parsed.
Proof.
  intros Hparse Hlookup. repeat split.
  unfold resolveURI. rewrite Hparse. cbn [bind]. by rewrite Hlookup.
Qed.

Lemma truthy_zero : truthy (num 0) = false.
Proof. vm_compute. reflexivity. Qed.

(** A falsy mood is not compared. *)
Lemma mood_out_of_range_falsy (mood : JsVal) :
  truthy mood = false -> mood_out_of_range mood = OK false.
Proof. unfold mood_out_of_range. by intros ->. Qed.

Lemma zero_not_between_1_10 : ~ integer_between 1 10 (num 0).
Proof. intros (z & Hz & Heq). injection Heq as Heq. lia. Qed.

(** The core validator never accepts an object whose mood is 0. *)
Lemma core_rejects_zero_mood (o : gmap jsstring JsVal) :
  field o "mood" = num 0 -> exists e, validateLifeEvent (VObj o) = Throw e.
Proof.
  intros Hm. rewrite validateLifeEvent_object, Hm. unfold validate_fields.
  destruct (negb (Number_isInteger (num 0)) || lt_lit (num 0) 1 || gt_lit (num 0) 10)
    eqn:Htest.
  - change (negb (is_undefined (num 0))) with true.
    rewrite (throw_shown_converts true (num 0)) by done. cbn [throw_if].
    repeat match goal with
           | |- exists e, bind (Throw ?e') _ = Throw e => by exists e'
           | |- exists e, bind ?stage _ = Throw e =>
               destruct stage as [[]|e']; [cbn [bind]|by exists e']
           end.
    by eexists.
  - apply mood_test_spec in Htest. by destruct zero_not_between_1_10.
Qed.

(** A URI that parses is a non-empty string. *)
Lemma parseURI_value_truthy (uri : JsVal) (c : URIComponents) :
  parseURI_value uri = OK c -> truthy uri = true.
Proof.
  destruct uri as [| | | |s| |]; try done.
  unfold parseURI_value, parseURI. intros Hp.
  destruct (startsWith s (lit "life://")) eqn:Hs; [|done].
  apply startsWith_inv in Hs as [r ->]. done.
Qed.

(** C10. For an object whose mood is 0: the validator of the entry point
    returns what it returns without the mood, and when title, type,
    source, timestamp and uri are present, the type is registered and the
    uri parses, it returns isValid = true and no error; the core validator
    rejects the same object, with the mood error when nothing else is
    wrong. *)
Theorem zero_mood_passes_entry_validator
    (o : gmap jsstring JsVal) (ty : jsstring) (registered : JsVal) (c : URIComponents) :
  o !! lit "mood" = Some (num 0) ->
  truthy (field o "title") = true ->
  field o "type" = VStr ty -> ty <> [] ->
  isValidEventType (VStr ty) = OK registered -> truthy registered = true ->
  truthy (field o "source") = true ->
  truthy (field o "timestamp") = true ->
  parseURI_value (field o "uri") = OK c ->
  validateLifeOSEvent (VObj o) = OK {| isValid := true; errors := [] |} /\
  validateLifeOSEvent (VObj o) = validateLifeOSEvent (VObj (delete (lit "mood") o)) /\
  exists e, validateLifeEvent (VObj o) = Throw e /\
    (validateLifeEvent (VObj (delete (lit "mood") o)) = OK tt -> e = BadMood (num 0)).
Proof.
  intros Hm Htitle Hty Hne Hreg Hregt Hsrc Hts Huri.
  pose proof (parseURI_value_truthy _ _ Huri) as Huri'.
  assert (field o "mood" = num 0) as Hmood by (unfold field; by rewrite Hm).
  split; [|split].
  - unfold validateLifeOSEvent. cbn [get bind]. unfold field in *.
    rewrite Htitle, Hty, Hsrc, Hts, Huri, Huri', Hmood.
    assert (truthy (VStr ty) = true) as -> by (by destruct ty).
    cbn [negb push_if]. rewrite Hreg. cbn [bind]. rewrite Hregt.
    cbn [negb push_if].
    by rewrite (mood_out_of_range_falsy (num 0)) by apply truthy_zero.
  - unfold validateLifeOSEvent. cbn [get bind]. unfold field in *.
    rewrite lookup_delete_eq. rewrite !lookup_delete_ne by done.
    rewrite Hmood. change (default VUndefined None) with VUndefined.
    rewrite (mood_out_of_range_falsy (num 0)) by apply truthy_zero.
    by rewrite (mood_out_of_range_falsy VUndefined) by done.
  - destruct (core_rejects_zero_mood o Hmood) as [e He].
    exists e. split; [done|]. intros Hrest.
    rewrite (validateLifeEvent_with_mood o (num 0)) in He by done.
    rewrite throw_shown_converts in He by done.
    destruct (_ || _ || _) eqn:Ht; [by injection He|].
    apply mood_test_spec in Ht. by destruct zero_not_between_1_10.
Qed.

End EventProperties.

(** ** More on the core validator and the registry *)

Section MoreEventProperties.
Context `{Engine}.

(** The test of the duration rule accepts the non-negative integers and
    nothing else. *)
Lemma duration_test_spec (d : JsVal) :
  negb (Number_isInteger d) || lt_lit d 0 = false <-> natural d.
Proof.
  unfold natural, num. split.
  - intros Ht. apply orb_false_iff in Ht as [Hint Hlt].
    apply negb_false_iff in Hint.
    destruct d as [| | |[| |q]| | |]; try done.
    unfold Number_isInteger in Hint. apply Pos.eqb_eq, Qc_integer in Hint.
    unfold lt_lit in *. cbn [number num_lt] in Hlt.
    apply bool_decide_eq_false in Hlt.
    exists (Qnum q). split; [|by rewrite <-Hint].
    rewrite Hint in Hlt. rewrite <-Z2Qc_inj_lt in Hlt. lia.
  - intros (z & Hz & ->).
    unfold lt_lit. cbn [number num_lt Number_isInteger Qc_of_Z this inject_Z Qden].
    rewrite bool_decide_eq_false_2; [done|]. rewrite <-Z2Qc_inj_lt. lia.
Qed.

(** The loop over the linked URIs passes exactly on strings that all start
    with the scheme. *)
Lemma check_linked_uris_spec (uris : list JsVal) :
  check_linked_uris uris = OK tt <->
  exists strings : list jsstring,
    uris = map VStr strings /\
    Forall (fun s => startsWith s (lit "life://") = true) strings.
Proof.
  split.
  - induction uris as [|uri rest IH]; intros Hcheck.
    + by exists [].
    + cbn [check_linked_uris] in Hcheck.
      destruct uri as [| | | |s| |]; try done.
      cbn [call_startsWith bind] in Hcheck.
      destruct (startsWith s (lit "life://")) eqn:Hs; [|done].
      destruct (IH Hcheck) as (strings & -> & Hall).
      exists (s :: strings). split; [done|by constructor].
  - intros (strings & -> & Hall). by apply check_linked_uris_all_prefixed.
Qed.

Lemma not_nonempty_string_spec (v : JsVal) :
  not_nonempty_string v = false <-> nonempty_string v.
Proof.
  unfold nonempty_string. split.
  - destruct v as [| | | |s| |]; try done.
    destruct s; [done|]. intros _. by eexists.
  - intros (s & -> & Hs). by destruct s.
Qed.

Lemma is_undefined_spec (v : JsVal) : is_undefined v = true <-> v = VUndefined.
Proof. by destruct v. Qed.

Lemma nonempty_string_truthy (v : JsVal) : nonempty_string v -> truthy v = true.
Proof. intros (s & -> & Hs). by destruct s. Qed.

(** A sequence of checks passes when each of them does. *)
Lemma bind_OK_tt (m k : result unit) : (m;;; k) = OK tt <-> m = OK tt /\ k = OK tt.
Proof.
  destruct m as [[]|e]; cbn [bind]; [|split; [done|by intros [? _]]].
  split; [done|by intros [_ ?]].
Qed.

Lemma throw_if_spec (c : bool) (e : LifeError) : throw_if c e = OK tt <-> c = false.
Proof. by destruct c. Qed.

Lemma throw_shown_spec (c : bool) (v : JsVal) (e : LifeError) :
  throw_shown c v e = OK tt <-> c = false.
Proof.
  unfold throw_shown. destruct c; [|done]. split; [|done].
  by destruct (ToString v).
Qed.

Lemma test_shown_spec (re : jsstring -> bool) (v : JsVal) (e : LifeError) :
  test_shown re v e = OK tt <-> shown_matches re v.
Proof.
  split; [|apply test_shown_matches].
  unfold test_shown, shown_matches. destruct (ToString v) as [shown|]; [|done].
  cbn [bind]. destruct (re shown) eqn:Hre; [|done]. intros _. by exists shown.
Qed.

Lemma linked_rule_spec (linked_uris : JsVal) :
  (if truthy linked_uris && Array_isArray linked_uris
   then check_linked_uris (array_elems linked_uris)
   else OK tt) = OK tt
  <-> (Array_isArray linked_uris = true -> prefixed_strings linked_uris).
Proof.
  unfold prefixed_strings.
  destruct linked_uris as [| | | | |elems|]; cbn [Array_isArray array_elems truthy andb];
    rewrite ?andb_false_r; try (split; [done|done]).
  rewrite check_linked_uris_spec. split.
  - intros (strings & -> & Hall) _. by exists strings.
  - intros Hp. destruct (Hp eq_refl) as (strings & [= ->] & Hall). by exists strings.
Qed.

Lemma mood_rule_spec (mood : JsVal) :
  (if negb (is_undefined mood)
   then throw_shown (negb (Number_isInteger mood) || lt_lit mood 1 || gt_lit mood 10)
          mood (BadMood mood)
   else OK tt) = OK tt
  <-> mood = VUndefined \/ integer_between 1 10 mood.
Proof.
  destruct (is_undefined mood) eqn:Hu; cbn [negb].
  - apply is_undefined_spec in Hu. split; [by left|done].
  - rewrite throw_shown_spec, mood_test_spec. split; [by right|].
    intros [->|?]; done.
Qed.

Lemma duration_rule_spec (duration : JsVal) :
  (if negb (is_undefined duration)
   then throw_shown (negb (Number_isInteger duration) || lt_lit duration 0)
          duration (BadDuration duration)
   else OK tt) = OK tt
  <-> duration = VUndefined \/ natural duration.
Proof.
  destruct (is_undefined duration) eqn:Hu; cbn [negb].
  - apply is_undefined_spec in Hu. split; [by left|done].
  - rewrite throw_shown_spec, duration_test_spec. split; [by right|].
    intros [->|?]; done.
Qed.

(** X8. The core validator accepts an object exactly when: timestamp and
    type are truthy and convert to strings that match the timestamp and the
    type pattern; source and title are non-empty strings; [linked_uris],
    when it is an array, holds only strings that start with the scheme; the
    mood, when there is one, is an integer from 1 to 10; the duration, when
    there is one, is a non-negative integer. *)
Theorem validateLifeEvent_accepts_iff (o : gmap jsstring JsVal) :
  validateLifeEvent (VObj o) = OK tt <-> well_formed_event o.
Proof.
  rewrite validateLifeEvent_object. unfold validate_fields, well_formed_event.
  rewrite !bind_OK_tt, !throw_if_spec, !negb_false_iff, !test_shown_spec,
    !throw_shown_spec, !not_nonempty_string_spec, linked_rule_spec, mood_rule_spec,
    duration_rule_spec.
  split.
  - intros (Hts & Hsrc & Hty & Htitle & Htsre & Htyre & Hs & Ht & Hl & Hm & Hd).
    done.
  - intros (Hts & Htsre & Hty & Htyre & Hs & Ht & Hl & Hm & Hd).
    split; [done|]. split; [by apply nonempty_string_truthy|].
    split; [done|]. split; [by apply nonempty_string_truthy|]. done.
Qed.

(** X9. A value that is not an object never passes: on [undefined] and
    [null] the first read faults with the runtime's [TypeError]; every
    other value (a boolean, a number, a string, an array) has no timestamp
    and is reported for that. *)
Theorem validateLifeEvent_not_an_object (event : JsVal) :
  (forall o, event <> VObj o) ->
  validateLifeEvent event =
    match event with
    | VUndefined | VNull => Throw (Runtime (ReadOfNullish event (lit "timestamp")))
    | _ => Throw (MissingField (lit "timestamp"))
    end.
Proof.
  intros Hobj. destruct event as [| | | | | |o]; try done. by destruct (Hobj o).
Qed.

(** An accepted event is an object. *)
Lemma validateLifeEvent_OK_object (event : JsVal) :
  validateLifeEvent event = OK tt -> exists o, event = VObj o.
Proof. destruct event as [| | | | | |o]; try done. by exists o. Qed.

(** X10. Missing fields come first: when one of timestamp, source, type and
    title is falsy and the ones before it in this order are truthy, the
    error names this field, whatever else is wrong with the event. *)
Theorem first_missing_field_is_reported
    (o : gmap jsstring JsVal) (before after : list jsstring) (name : jsstring) :
  REQUIRED = before ++ name :: after ->
  Forall (fun f => truthy (default VUndefined (o !! f)) = true) before ->
  truthy (default VUndefined (o !! name)) = false ->
  validateLifeEvent (VObj o) = Throw (MissingField name).
Proof.
  intros Hreq Hbefore Hname. unfold validateLifeEvent. rewrite Hreq. clear Hreq.
  assert (check_required (VObj o) (before ++ name :: after) = Throw (MissingField name))
    as ->; [|done].
  induction Hbefore as [|f before Hf _ IH]; cbn [app check_required get bind].
  - by rewrite Hname.
  - by rewrite Hf.
Qed.

(** X11. Timestamp and type are tested through their text and need not be
    strings: an accepted event stays accepted when its timestamp and its
    type, two strings, are each wrapped in an array. *)
Theorem timestamp_and_type_need_not_be_strings
    (o : gmap jsstring JsVal) (ts ty : jsstring) :
  o !! lit "timestamp" = Some (VStr ts) -> o !! lit "type" = Some (VStr ty) ->
  validateLifeEvent (VObj o) = OK tt ->
  validateLifeEvent
    (VObj (<[lit "type" := VArr [VStr ty]]> (<[lit "timestamp" := VArr [VStr ts]]> o)))
  = OK tt.
Proof.
  intros Hts Hty. rewrite !validateLifeEvent_object. unfold field.
  rewrite lookup_insert_eq.
  rewrite (lookup_insert_ne _ (lit "type") (lit "timestamp")) by done.
  rewrite lookup_insert_eq.
  rewrite !(lookup_insert_ne _ (lit "type")) by done.
  rewrite !(lookup_insert_ne _ (lit "timestamp")) by done.
  rewrite Hts, Hty.
  change (default VUndefined (Some ?v)) with v.
  unfold validate_fields.
  destruct (truthy (VStr ts)); [|done].
  destruct (truthy (default VUndefined (o !! lit "source"))); [|done].
  destruct (truthy (VStr ty)); [|done].
  unfold test_shown, ToString.
  cbn [truthy negb throw_if bind converts forallb andb text map join].
  destruct (truthy (default VUndefined (o !! lit "title"))); [|done].
  cbn [negb throw_if bind].
  destruct (timestamp_re ts); [|done].
  by destruct (type_re ty).
Qed.

(** X12. A registration changes the resolution of the URIs of its source and
    of no other: a URI whose source is another one resolves as before; a URI
    of the source resolves to what the new callback returns for its
    components, when that passes the validation. *)
Theorem registerResolver_frame
    (this this' : LifeURIResolver) (src : jsstring) (f : Resolver) :
  registerResolver this src (Function f) = OK this' ->
  (forall uri, (forall parsed, parseURI uri = OK parsed -> source parsed <> src) ->
     resolveURI this' uri = resolveURI this uri) /\
  (forall uri parsed event,
     parseURI uri = OK parsed -> source parsed = src ->
     f parsed = Resolved event -> validateLifeEvent event = OK tt ->
     resolveURI this' uri = OK event).
Proof.
  intros [= <-]. split.
  - intros uri Hother. unfold resolveURI.
    destruct (parseURI uri) as [parsed|e]; [|done]. cbn [bind resolvers].
    by rewrite lookup_insert_ne by (symmetry; by apply Hother).
  - intros uri parsed event Hparse <- Hf Hvalid. unfold resolveURI.
    rewrite Hparse. cbn [bind resolvers].
    by rewrite lookup_insert_eq, Hf, Hvalid.
Qed.

(** X13. What [resolveURI] returns is what the callback registered for the
    source of the URI returned for its components, and it is an object that
    passes the validation. *)
Theorem resolveURI_returns_validated (this : LifeURIResolver) (uri : jsstring) (event : JsVal) :
  resolveURI this uri = OK event ->
  exists parsed resolver o,
    parseURI uri = OK parsed /\
    resolvers this !! source parsed = Some resolver /\
    resolver parsed = Resolved event /\
    event = VObj o /\ validateLifeEvent (VObj o) = OK tt.
Proof.
  unfold resolveURI. intros Hres.
  destruct (parseURI uri) as [parsed|e]; [|done]. cbn [bind] in Hres.
  destruct (resolvers this !! source parsed) as [resolver|] eqn:Hlookup; [|done].
  destruct (resolver parsed) as [event'|reason] eqn:Hcall; [|done].
  destruct (validateLifeEvent event') as [[]|e] eqn:Hvalid; [|done].
  injection Hres as ->.
  destruct (validateLifeEvent_OK_object _ Hvalid) as [o ->].
  by exists parsed, resolver, o.
Qed.

(** The errors of [resolveURI]: an error of [parseURI], as it is; the
    error for a source without resolver; or the wrapped failure, whose
    message is the URI and the message of the rejection or of the
    validation error. *)
Lemma resolveURI_errors (this : LifeURIResolver) (uri : jsstring) (e : LifeError) :
  resolveURI this uri = Throw e ->
  parseURI uri = Throw e \/
  exists parsed,
    parseURI uri = OK parsed /\
    ((resolvers this !! source parsed = None /\ e = NoResolver (source parsed)) \/
     exists resolver cause,
       resolvers this !! source parsed = Some resolver /\
       e = ResolveFailed uri cause /\
       message e = lit "Failed to resolve URI " ++ uri ++ lit ": " ++ cause /\
       (resolver parsed = Rejected cause \/
        exists event error,
          resolver parsed = Resolved event /\
          validateLifeEvent event = Throw error /\ cause = message error)).
Proof.
  unfold resolveURI. intros Hres.
  destruct (parseURI uri) as [parsed|e']; cbn [bind] in Hres; [|left; congruence].
  right. exists parsed. split; [done|].
  destruct (resolvers this !! source parsed) as [resolver|] eqn:Hlookup;
    [|left; split; [done|congruence]].
  right. exists resolver.
  destruct (resolver parsed) as [event|reason] eqn:Hcall.
  - destruct (validateLifeEvent event) as [[]|error] eqn:Hvalid; [done|].
    exists (message error). injection Hres as <-.
    do 3 (split; [done|]). right. by exists event, error.
  - exists reason. injection Hres as <-. do 3 (split; [done|]). by left.
Qed.

(** The key under which [memoryResolver] looks an event up. *)
Lemma memoryResolver_hit (events : gmap jsstring JsVal) (c : URIComponents) (event : JsVal) :
  events !! (date c ++ lit "/" ++ source c ++ lit "/" ++ type c ++ lit "/" ++ slug c)
    = Some event ->
  truthy event = true ->
  memoryResolver events c = Resolved event.
Proof.
  intros Hev Ht. unfold memoryResolver. rewrite Hev.
  change (default VUndefined (Some event)) with event. by rewrite Ht.
Qed.

(** X14. Generated URIs resolve from memory. With [memoryResolver events]
    registered for the source of the components: the URI that [generateURI]
    returns resolves to the event stored under the text
    date/source/type/slug, the slug as given and not as escaped, when that
    event passes the validation; and it fails with the wrapped "Event not
    found" message when nothing is stored under it. *)
Theorem memoryResolver_serves_generated
    (this : LifeURIResolver) (events : gmap jsstring JsVal)
    (c : URIComponents) (uri : jsstring) :
  generateURI c = OK uri ->
  code_units (slug c) -> chr "/" ∉ source c -> chr "/" ∉ type c ->
  resolvers this !! source c = Some (memoryResolver events) ->
  let key := date c ++ lit "/" ++ source c ++ lit "/" ++ type c ++ lit "/" ++ slug c in
  (forall event, events !! key = Some event -> validateLifeEvent event = OK tt ->
     resolveURI this uri = OK event) /\
  (events !! key = None ->
     resolveURI this uri = Throw (ResolveFailed uri (lit "Event not found: " ++ key))).
Proof.
  intros Hgen Hcu Hs1 Hs2 Hlookup key.
  pose proof (generate_parse_roundtrip_any_slug c uri Hcu Hs1 Hs2 Hgen) as Hparse.
  unfold resolveURI. rewrite Hparse. cbn [bind with_full source]. rewrite Hlookup.
  split.
  - intros event Hev Hvalid.
    destruct (validateLifeEvent_OK_object _ Hvalid) as [o ->].
    rewrite (memoryResolver_hit events _ (VObj o)); [by rewrite Hvalid|exact Hev|done].
  - intros Hnone. unfold memoryResolver.
    change (date (with_full c uri)) with (date c).
    change (source (with_full c uri)) with (source c).
    change (type (with_full c uri)) with (type c).
    change (slug (with_full c uri)) with (slug c).
    fold key. by rewrite Hnone.
Qed.

End MoreEventProperties.

(** ** More on the validator of the entry point and on the command-line
    validator *)

Section EntryProperties.
Context `{Engine}.

Lemma push_if_empty (c : bool) (msg : jsstring) (errors : list jsstring) :
  push_if c msg errors = [] <-> c = false /\ errors = [].
Proof.
  unfold push_if. destruct c; [|split; [by intros ->|by intros [_ ->]]].
  split; [|by intros [? _]]. by destruct errors.
Qed.

Lemma length_zero {A} (l : list A) : Nat.eqb (length l) 0 = true <-> l = [].
Proof. by destruct l. Qed.

Lemma push_if_elem (c : bool) (msg x : jsstring) (errors : list jsstring) :
  x ∈ errors -> x ∈ push_if c msg errors.
Proof. unfold push_if. destruct c; [|done]. intros Hx. apply elem_of_app. by left. Qed.

Lemma push_if_pushed (msg : jsstring) (errors : list jsstring) :
  msg ∈ push_if true msg errors.
Proof. apply elem_of_app. right. by constructor. Qed.

(** What the comparison of the mood gives when it returns, and when it
    faults. *)
Lemma mood_out_of_range_OK (mood : JsVal) (out : bool) :
  mood_out_of_range mood = OK out ->
  out = truthy mood && (lt_lit mood 1 || gt_lit mood 10).
Proof.
  unfold mood_out_of_range, less_than, greater_than, ToNumber.
  destruct (truthy mood); [|by intros [= <-]].
  destruct (converts mood); [|done]. cbn [bind andb].
  destruct (lt_lit mood 1); cbn [orb]; by intros [= <-].
Qed.



(** From [OK x = OK y], replace [y] by [x], literals left as they are. *)
Ltac ok_subst Heq :=
  match type of Heq with
  | OK ?x = OK ?y => assert (y = x) as -> by congruence; clear Heq
  end.

(** X16. The result of [validateLifeOSEvent] on an object is valid exactly
    when it lists no error, and exactly when: title, source and timestamp
    are truthy; the type is a string that the registry knows; the URI is a
    string that [parseURI] accepts; and the mood is falsy or neither below 1
    nor above 10 as a Number. *)
Theorem validateLifeOSEvent_valid_iff (o : gmap jsstring JsVal) (r : ValidationResult) :
  validateLifeOSEvent (VObj o) = OK r ->
  (isValid r = true <-> errors r = []) /\
  (isValid r = true <->
   truthy (field o "title") = true /\
   truthy (field o "source") = true /\
   truthy (field o "timestamp") = true /\
   (exists ty description,
      field o "type" = VStr ty /\ isValidEventType (VStr ty) = OK description /\
      truthy description = true) /\
   (exists uri c, field o "uri" = VStr uri /\ parseURI uri = OK c) /\
   (truthy (field o "mood") = false \/
    lt_lit (field o "mood") 1 = false /\ gt_lit (field o "mood") 10 = false)).
Proof.
  unfold validateLifeOSEvent, field. cbn [get bind].
  set (title := default VUndefined (o !! lit "title")).
  set (type := default VUndefined (o !! lit "type")).
  set (source := default VUndefined (o !! lit "source")).
  set (timestamp := default VUndefined (o !! lit "timestamp")).
  set (uri := default VUndefined (o !! lit "uri")).
  set (mood := default VUndefined (o !! lit "mood")).
  intros Hr.
  assert (exists es, errors r = es /\ isValid r = Nat.eqb (length es) 0 /\
            (es = [] <->
             truthy title = true /\ truthy source = true /\ truthy timestamp = true /\
             (exists ty description,
                type = VStr ty /\ isValidEventType (VStr ty) = OK description /\
                truthy description = true) /\
             (exists s c, uri = VStr s /\ parseURI s = OK c) /\
             (truthy mood = false \/ lt_lit mood 1 = false /\ gt_lit mood 10 = false)))
    as (es & Hes & Hvalid & Hiff).
  { destruct (truthy type) eqn:Hty.
    - destruct (isValidEventType type) as [registered|e] eqn:Hreg; [|done].
      cbn [bind] in Hr.
      destruct (mood_out_of_range mood) as [out|e] eqn:Hout; [|done].
      apply mood_out_of_range_OK in Hout as ->.
      cbn [bind] in Hr. ok_subst Hr. cbn [errors isValid].
      eexists. split; [done|]. split; [done|].
      rewrite push_if_empty.
      destruct (parseURI_value uri) as [c|err] eqn:Huri.
      + pose proof (parseURI_value_truthy _ _ Huri) as Huri_truthy.
        rewrite !push_if_empty. rewrite Huri_truthy. cbn [negb].
        destruct uri as [| | | |s| |]; try done.
        destruct type as [| | | |ty| |]; try done.
        split.
        * intros (Hmood & Hregd & _ & Hts & Hsrc & _ & Htitle & _).
          apply negb_false_iff in Hregd, Hts, Hsrc, Htitle.
          do 3 (split; [done|]). split; [by exists ty, registered|].
          split; [by exists s, c|].
          apply andb_false_iff in Hmood as [Hmood|Hmood]; [by left|right].
          by apply orb_false_iff in Hmood.
        * intros (Htitle & Hsrc & Hts & (ty' & d & [= <-] & Hd & Hdt) & _ & Hmood).
          rewrite Htitle, Hsrc, Hts. cbn [negb].
          assert (registered = d) as -> by congruence. rewrite Hdt. cbn [negb].
          repeat (split; [|done]).
          destruct Hmood as [->|[-> ->]]; [done|]. by rewrite andb_false_r.
      + split.
        * intros [_ Happ]. by destruct (push_if _ _ _).
        * intros (_ & _ & _ & _ & (s & c & -> & Hs) & _).
          cbn [parseURI_value] in Huri. congruence.
    - cbn [bind] in Hr.
      destruct (mood_out_of_range mood) as [out|e] eqn:Hout; [|done].
      cbn [bind] in Hr. ok_subst Hr. cbn [errors isValid].
      eexists. split; [done|]. split; [done|].
      cbn [negb]. split.
      + rewrite push_if_empty. intros [_ Hnil].
        destruct (parseURI_value uri).
        * apply push_if_empty in Hnil as [_ Hnil].
          apply push_if_empty in Hnil as [_ Hnil].
          apply push_if_empty in Hnil as [_ Hnil].
          by apply push_if_empty in Hnil as [Hnil _].
        * by destruct (push_if _ _ _).
      + intros (_ & _ & _ & (ty & d & Heq & Hd & Hdt) & _). exfalso.
        rewrite Heq in Hty. cbn [truthy] in Hty. apply negb_false_iff in Hty.
        destruct ty; [|done].
        assert (isValidEventType (VStr []) = OK VUndefined) as Hempty
          by (vm_compute; reflexivity).
        assert (d = VUndefined) as -> by congruence. done. }
  rewrite Hes, Hvalid, length_zero. split; [done|exact Hiff].
Qed.

(** X17. A falsy URI is reported twice: as required, and as a URI of
    invalid format, with the message of the error that [parseURI] throws on
    it, which for an absent URI is the runtime's [TypeError]. *)
Theorem falsy_uri_is_reported_twice (o : gmap jsstring JsVal) (r : ValidationResult) :
  truthy (field o "uri") = false ->
  validateLifeOSEvent (VObj o) = OK r ->
  exists error,
    parseURI_value (field o "uri") = Throw error /\
    lit "URI is required" ∈ errors r /\
    lit "Invalid URI format: " ++ message error ∈ errors r.
Proof.
  unfold validateLifeOSEvent, field. cbn [get bind]. intros Huri Hr.
  destruct (parseURI_value (default VUndefined (o !! lit "uri"))) as [c|error] eqn:Hparse.
  { apply parseURI_value_truthy in Hparse. congruence. }
  exists error. split; [done|].
  rewrite Huri in Hr. cbn [negb] in Hr.
  destruct (if truthy _ then _ else _) as [es|e] eqn:Hes; [|done].
  cbn [bind] in Hr.
  destruct (mood_out_of_range _) as [out|e] eqn:Hout; [|done].
  cbn [bind] in Hr. ok_subst Hr. cbn [errors].
  assert (lit "URI is required" ∈ es) as Hin.
  { destruct (truthy (default VUndefined (o !! lit "type"))).
    - destruct (isValidEventType _); [|done]. cbn [bind] in Hes. ok_subst Hes.
      apply push_if_elem, push_if_pushed.
    - ok_subst Hes. apply push_if_pushed. }
  split; apply push_if_elem, elem_of_app; [by left|right; by constructor].
Qed.

End EntryProperties.

Section ValidatorProperties.
Context `{Engine}.
Variable timeValue : JsVal -> JsNum.

(** The loop over the linked URIs appends to the errors it finds. *)
Lemma check_each_linked_app (uris : list JsVal) (errors : list jsstring) :
  check_each_linked uris errors =
    (added <- check_each_linked uris [];; OK (errors ++ added)).
Proof.
  revert errors. induction uris as [|uri rest IH]; intros errors; cbn [check_each_linked].
  - cbn [bind]. by rewrite app_nil_r.
  - destruct (parseURI_value uri) as [c|error]; cbn [bind]; [done|].
    destruct (ToString uri) as [shown|e]; cbn [bind]; [|done].
    rewrite (IH (errors ++ _)), (IH ([] ++ _)).
    destruct (check_each_linked rest []) as [added|e]; cbn [bind]; [|done].
    by rewrite <- !(assoc_L (++)).
Qed.

(** It adds no error exactly when every element is a string that
    [parseURI] accepts. *)
Lemma check_each_linked_empty (uris : list JsVal) :
  check_each_linked uris [] = OK [] <->
  exists strings : list jsstring,
    uris = map VStr strings /\ Forall (fun s => exists c, parseURI s = OK c) strings.
Proof.
  induction uris as [|uri rest IH]; cbn [check_each_linked].
  - split; [by exists []|done].
  - destruct (parseURI_value uri) as [c|error] eqn:Hparse; cbn [bind].
    + rewrite IH. destruct uri as [| | | |s| |]; try done. cbn [parseURI_value] in Hparse.
      split.
      * intros (strings & -> & Hall). exists (s :: strings). split; [done|].
        constructor; [by exists c|done].
      * intros ([|s' strings] & Heq & Hall); [done|].
        injection Heq as <- ->. apply Forall_cons_1 in Hall as [_ Hall]. by exists strings.
    + split.
      * destruct (ToString uri) as [shown|e]; cbn [bind]; [|done].
        rewrite check_each_linked_app.
        destruct (check_each_linked rest []) as [added|e]; cbn [bind]; [|done].
        intros Hnil. assert (([] ++ [lit "Invalid linked URI: " ++ shown ++ lit " - "
                                       ++ message error]) ++ added = []) as Happ
          by congruence.
        by apply app_eq_nil in Happ as [Happ _].
      * intros ([|s strings] & Heq & Hall); [done|].
        injection Heq as -> ->. apply Forall_cons_1 in Hall as [[c Hc] _].
        cbn [parseURI_value] in Hparse. congruence.
Qed.

(** [validateLinkedURIs] appends to the errors it is given. *)
Lemma validateLinkedURIs_app (event : JsVal) (errors : list jsstring) :
  validateLinkedURIs event errors =
    (added <- validateLinkedURIs event [];; OK (errors ++ added)).
Proof.
  unfold validateLinkedURIs.
  destruct (get event (lit "linked_uris")) as [linked|e]; [|done]. cbn [bind].
  destruct (truthy linked); cbn [bind]; [|by rewrite app_nil_r].
  destruct (negb (Array_isArray linked)); cbn [bind]; [done|].
  apply check_each_linked_app.
Qed.

(** The checks of the type and of the timestamps add warnings only. *)
Lemma validateEventType_errors (this this' : CLI.LifeEventValidator) (event : JsVal) :
  CLI.validateEventType this event = OK this' -> CLI.errors this' = CLI.errors this.
Proof.
  unfold CLI.validateEventType, bind. intros Hv.
  repeat case_match; try done; by simplify_eq.
Qed.

Lemma validateTimestamps_errors (this this' : CLI.LifeEventValidator) (event : JsVal) :
  CLI.validateTimestamps timeValue this event = OK this' ->
  CLI.errors this' = CLI.errors this.
Proof.
  unfold CLI.validateTimestamps, CLI.Date_value, bind. intros Hv.
  repeat case_match; try done; by simplify_eq.
Qed.

Lemma validateMetadata_errors (this this' : CLI.LifeEventValidator)
    (o : gmap jsstring JsVal) :
  CLI.validateMetadata this (VObj o) = OK this' ->
  CLI.errors this' =
    CLI.errors this
      ++ (if truthy (field o "metadata") && negb (CLI.typeof_object (field o "metadata"))
          then [lit "Metadata must be an object"] else []).
Proof.
  unfold CLI.validateMetadata, field. cbn [get bind]. intros Hv.
  destruct (_ && _);
    match type of Hv with OK ?t = OK _ => assert (this' = t) as -> by congruence end;
    [done|by rewrite app_nil_r].
Qed.

(** The errors that the validator is left with: the message of the core
    validator, the error on the metadata, the errors on the linked URIs, in
    this order. *)
Lemma validateEvent_errors (o : gmap jsstring JsVal) (valid : bool)
    (this : CLI.LifeEventValidator) :
  CLI.validateEvent timeValue (VObj o) = OK (valid, this) ->
  valid = Nat.eqb (length (CLI.errors this)) 0 /\
  exists linked,
    validateLinkedURIs (VObj o) [] = OK linked /\
    CLI.errors this =
      match validateLifeEvent (VObj o) with
      | OK _ => []
      | Throw error => [message error]
      end
      ++ (if truthy (field o "metadata") && negb (CLI.typeof_object (field o "metadata"))
          then [lit "Metadata must be an object"] else [])
      ++ linked.
Proof.
  unfold CLI.validateEvent. intros Hv.
  destruct (CLI.validateEventType _ _) as [this1|e] eqn:Htype; [|done].
  cbn [bind] in Hv.
  destruct (CLI.validateMetadata _ _) as [this2|e] eqn:Hmeta; [|done].
  cbn [bind] in Hv.
  rewrite validateLinkedURIs_app in Hv.
  destruct (validateLinkedURIs (VObj o) []) as [linked|e] eqn:Hlinked; [|done].
  cbn [bind] in Hv.
  destruct (CLI.validateTimestamps _ _ _) as [this3|e] eqn:Htime; [|done].
  cbn [bind] in Hv.
  assert (valid = Nat.eqb (length (CLI.errors this3)) 0 /\ this = this3) as [-> ->]
    by (split; congruence).
  split; [done|]. exists linked. split; [done|].
  apply validateTimestamps_errors in Htime. rewrite Htime. cbn [CLI.errors].
  apply validateMetadata_errors in Hmeta. rewrite Hmeta.
  apply validateEventType_errors in Htype. rewrite Htype.
  rewrite <- (assoc_L (++)). f_equal.
  by destruct (validateLifeEvent (VObj o)).
Qed.

(** [validateLinkedURIs] adds no error exactly when [linked_uris] is falsy
    or an array of strings that [parseURI] accepts. *)
Lemma validateLinkedURIs_empty (o : gmap jsstring JsVal) (linked : list jsstring) :
  validateLinkedURIs (VObj o) [] = OK linked ->
  linked = [] <->
  truthy (field o "linked_uris") = false \/
  exists uris : list jsstring,
    field o "linked_uris" = VArr (map VStr uris) /\
    Forall (fun s => exists c, parseURI s = OK c) uris.
Proof.
  unfold validateLinkedURIs, field. cbn [get bind].
  destruct (truthy (default VUndefined (o !! lit "linked_uris"))) eqn:Htruthy.
  - destruct (default VUndefined (o !! lit "linked_uris")) as [| | | | |elems|];
      cbn [Array_isArray negb array_elems]; intros Hl;
      try (match type of Hl with
           | OK ?l = OK _ => assert (linked = l) as -> by congruence
           end; split; [done|intros [?|(uris & ? & _)]; done]).
    assert (linked = [] <-> check_each_linked elems [] = OK []) as ->
      by (split; [by intros ->|congruence]).
    rewrite check_each_linked_empty. split.
    + intros (strings & -> & Hall). right. by exists strings.
    + intros [?|(uris & [= ->] & Hall)]; [done|]. by exists uris.
  - intros Hl. assert (linked = []) as -> by congruence. split; [by left|done].
Qed.

(** X18. On an object that it does not fault on, [validateEvent] returns
    [true] exactly when it leaves no error, and exactly when the core
    validator accepts the event, the metadata is falsy or of type object,
    and [linked_uris] is falsy or an array of strings that [parseURI]
    accepts. *)
Theorem validateEvent_valid_iff
    (o : gmap jsstring JsVal) (valid : bool) (this : CLI.LifeEventValidator) :
  CLI.validateEvent timeValue (VObj o) = OK (valid, this) ->
  (valid = true <-> CLI.errors this = []) /\
  (valid = true <->
   validateLifeEvent (VObj o) = OK tt /\
   (truthy (field o "metadata") = false \/
    CLI.typeof_object (field o "metadata") = true) /\
   (truthy (field o "linked_uris") = false \/
    exists uris : list jsstring,
      field o "linked_uris" = VArr (map VStr uris) /\
      Forall (fun s => exists c, parseURI s = OK c) uris)).
Proof.
  intros (-> & linked & Hlinked & Herrors)%validateEvent_errors.
  rewrite length_zero. split; [done|].
  rewrite Herrors. rewrite <- (validateLinkedURIs_empty o linked Hlinked).
  split.
  - intros [Hcore [Hmeta Hl]%app_eq_nil]%app_eq_nil.
    split; [by destruct (validateLifeEvent (VObj o)) as [[]|]|].
    split; [|done].
    destruct (truthy (field o "metadata")); [right|by left].
    by destruct (CLI.typeof_object (field o "metadata")).
  - intros (-> & Hmeta & ->). rewrite app_nil_r. cbn [app].
    by destruct Hmeta as [->| ->]; rewrite ?andb_false_r.
Qed.

(** An event that the core validator rejects is never valid for
    [validateEvent], and the message of the core validator is the first of
    the errors. *)
Lemma validateEvent_reports_core_error_first
    (o : gmap jsstring JsVal) (error : LifeError)
    (valid : bool) (this : CLI.LifeEventValidator) :
  validateLifeEvent (VObj o) = Throw error ->
  CLI.validateEvent timeValue (VObj o) = OK (valid, this) ->
  valid = false /\ exists more, CLI.errors this = message error :: more.
Proof.
  intros Hcore (-> & linked & _ & Herrors)%validateEvent_errors.
  rewrite Hcore in Herrors. rewrite Herrors. split; [done|]. by eexists.
Qed.

End ValidatorProperties.

(** ** More on the event-type registry *)

Section RegistryProperties.
Context `{Engine}.

(** Every listed type is a segment of a URI and has its description. *)
Lemma listed_type_described (t : jsstring) :
  t ∈ getAllEventTypesList ->
  segment t /\
  exists description,
    description <> [] /\
    isValidEventType (VStr t) = OK (VStr description) /\
    getEventTypeDescription (VStr t) = OK (VStr description).
Proof.
  intros Hin.
  assert (forallb (fun t =>
                     negb (str_falsy t) && forallb (fun c => negb (c =? chr "/")%N) t &&
                     match isValidEventType (VStr t), getEventTypeDescription (VStr t) with
                     | OK (VStr d), OK (VStr d') =>
                         negb (str_falsy d) && bool_decide (d = d')
                     | _, _ => false
                     end) getAllEventTypesList = true) as Hall
    by (vm_compute; reflexivity).
  rewrite forallb_forall in Hall. apply list_elem_of_In, Hall in Hin.
  apply andb_true_iff in Hin as [[Hne Hslash]%andb_true_iff Hin]. split.
  - split; [by destruct t|]. intros Hs%list_elem_of_In.
    rewrite forallb_forall in Hslash. apply Hslash in Hs.
    by rewrite N.eqb_refl in Hs.
  - destruct (isValidEventType (VStr t)) as [[| | | |d| |]|]; try done.
    destruct (getEventTypeDescription (VStr t)) as [[| | | |d'| |]|]; try done.
    apply andb_true_iff in Hin as [Hd Heq]. apply bool_decide_eq_true in Heq as <-.
    exists d. split; [by destruct d|done].
Qed.

(** X20. The three readers of the registry agree: every type that
    [getAllEventTypesList] lists is valid for [isValidEventType], which
    returns its description, a non-empty string, and
    [getEventTypeDescription] returns the same; and no type is listed
    twice. *)
Theorem listed_types_are_registered :
  NoDup getAllEventTypesList /\
  forall t, t ∈ getAllEventTypesList ->
    exists description,
      description <> [] /\
      isValidEventType (VStr t) = OK (VStr description) /\
      getEventTypeDescription (VStr t) = OK (VStr description).
Proof.
  split.
  - apply (bool_decide_unpack (NoDup getAllEventTypesList)). vm_compute. exact I.
  - intros t Hin. by apply listed_type_described.
Qed.

(** X21. The registry and the pattern of the core validator disagree on
    one type: [music.add_to_playlist] is listed, and an event of this type
    never passes [validateLifeEvent], whose pattern has no underscore.
    Every other listed type matches the pattern. *)
Theorem listed_type_rejected_by_core :
  lit "music.add_to_playlist" ∈ getAllEventTypesList /\
  (forall t, t ∈ getAllEventTypesList -> t <> lit "music.add_to_playlist" ->
     type_re t = true) /\
  (forall o : gmap jsstring JsVal,
     field o "type" = str "music.add_to_playlist" -> validateLifeEvent (VObj o) <> OK tt).
Proof.
  split; [|split].
  - apply (bool_decide_unpack (lit "music.add_to_playlist" ∈ getAllEventTypesList)).
    vm_compute. exact I.
  - intros t Hin Hne.
    assert (forallb (fun t => bool_decide (t = lit "music.add_to_playlist") || type_re t)
              getAllEventTypesList = true) as Hall
      by (vm_compute; reflexivity).
    rewrite forallb_forall in Hall. apply list_elem_of_In, Hall in Hin.
    apply orb_true_iff in Hin as [Heq%bool_decide_eq_true|Hre]; done.
  - intros o Hty. rewrite validateLifeEvent_object, Hty. unfold validate_fields.
    rewrite !bind_OK_tt. intros (_ & _ & _ & _ & _ & Hre & _).
    assert (test_shown type_re (str "music.add_to_playlist")
              (BadEventType (str "music.add_to_playlist"))
            = Throw (BadEventType (str "music.add_to_playlist"))) as Hthrown
      by (vm_compute; reflexivity).
    congruence.
Qed.

End RegistryProperties.

(** ** Linking events *)

Section LinkingProperties.
Context `{Engine}.

(** The related events that count, as [linkEvents] reads its argument. *)
Lemma linkEvents_object (o : gmap jsstring JsVal) (related : JsVal) :
  linkEvents (VObj o) related =
    OK (VObj (<[lit "related_events" :=
                  VArr (map event_id
                          (List.filter is_linkable
                             (if negb (Array_isArray related) then [related]
                              else array_elems related)))]> o)).
Proof. unfold linkEvents. cbn [spread get bind]. by destruct (List.filter _ _). Qed.

Lemma is_linkable_id (event : JsVal) :
  is_linkable event = true -> truthy (event_id event) = true.
Proof.
  unfold is_linkable, event_id. intros [_ Hid]%andb_true_iff.
  destruct (get event (lit "id")) as [id|]; [|done].
  destruct (get event (lit "uri")); [|done].
  by apply andb_true_iff in Hid as [Hid _].
Qed.

(** X22. On an object, [linkEvents] never throws. It returns the object
    with one property changed, [related_events]: the array of the ids of
    the related events that are truthy and have a truthy id and a truthy
    URI, in their order; every id in it is truthy, and every other
    property is the one of the primary event. *)
Theorem linkEvents_sets_related_events (o : gmap jsstring JsVal) (related : JsVal) :
  exists (o' : gmap jsstring JsVal) (ids : list JsVal),
    linkEvents (VObj o) related = OK (VObj o') /\
    o' !! lit "related_events" = Some (VArr ids) /\
    ids = map event_id
            (List.filter is_linkable
               (if negb (Array_isArray related) then [related] else array_elems related)) /\
    Forall (fun id => truthy id = true) ids /\
    forall name, name <> lit "related_events" -> o' !! name = o !! name.
Proof.
  eexists _, _. split; [apply linkEvents_object|].
  split; [by rewrite lookup_insert_eq|]. split; [done|]. split.
  - apply Forall_map, list.Forall_forall. intros event Hin.
    apply list_elem_of_In, filter_In in Hin as [_ Hlink]. by apply is_linkable_id.
  - intros name Hname. by rewrite lookup_insert_ne.
Qed.

(** X23. Links are replaced and not added: linking the result of a first
    call to other events gives what linking the primary event to them
    alone gives. *)
Theorem linkEvents_replaces_earlier_links (primary first second linked : JsVal) :
  linkEvents primary first = OK linked ->
  exists relinked,
    linkEvents linked second = OK relinked /\
    forall direct, linkEvents primary second = OK direct -> direct = relinked.
Proof.
  intros Hfirst.
  assert (exists ids, linked = VObj (<[lit "related_events" := VArr ids]> (spread primary)))
    as [ids ->].
  { unfold linkEvents in Hfirst. destruct (List.filter _ _) as [|event valid].
    - eexists. by injection Hfirst as <-.
    - destruct (get primary (lit "id")); [|done]. cbn [bind] in Hfirst.
      eexists. by injection Hfirst as <-. }
  rewrite linkEvents_object. eexists. split; [done|].
  intros direct Hdirect. rewrite insert_insert_eq.
  unfold linkEvents in Hdirect. destruct (List.filter _ _) as [|event valid].
  - by injection Hdirect as <-.
  - destruct (get primary (lit "id")); [|done]. cbn [bind] in Hdirect.
    by injection Hdirect as <-.
Qed.

(** X24. [linkEvents] throws in one case only: the primary event is
    [undefined] or [null] and some related event is valid; the error is the
    runtime's, for the read of the id of the primary event. Without a valid
    related event it returns an object for any primary event. *)
Theorem linkEvents_throws_iff (primary related : JsVal) (e : LifeError) :
  linkEvents primary related = Throw e <->
  (primary = VUndefined \/ primary = VNull) /\
  (exists event,
     event ∈ (if negb (Array_isArray related) then [related] else array_elems related) /\
     is_linkable event = true) /\
  e = Runtime (ReadOfNullish primary (lit "id")).
Proof.
  unfold linkEvents.
  set (events := if negb (Array_isArray related) then [related] else array_elems related).
  destruct (List.filter is_linkable events) as [|event valid] eqn:Hvalid.
  - split; [done|]. intros (_ & (event & Hin & Hlink) & _).
    assert (In event (List.filter is_linkable events)) as Hfiltered
      by (apply filter_In; split; [by apply list_elem_of_In|done]).
    by rewrite Hvalid in Hfiltered.
  - assert (In event (List.filter is_linkable events)) as [Hin Hlink]%filter_In
      by (rewrite Hvalid; by left).
    apply list_elem_of_In in Hin.
    destruct primary as [| | | | | |o]; cbn [get bind].
    + split; [intros [= <-]|by intros (_ & _ & ->)].
      split; [by left|]. split; [by exists event|done].
    + split; [intros [= <-]|by intros (_ & _ & ->)].
      split; [by right|]. split; [by exists event|done].
    + split; [done|]. by intros ([?|?] & _).
    + split; [done|]. by intros ([?|?] & _).
    + split; [done|]. by intros ([?|?] & _).
    + split; [done|]. by intros ([?|?] & _).
    + split; [done|]. by intros ([?|?] & _).
Qed.

End LinkingProperties.

(** ** Building events and their URIs *)

Lemma dash_unescaped : uriUnescaped (chr "-") = true.
Proof. vm_compute. reflexivity. Qed.

Lemma alnum_unescaped (c : N) : is_lower c || is_digit c = true -> uriUnescaped c = true.
Proof.
  unfold uriUnescaped. intros [->| ->]%orb_true_iff; [done|].
  by rewrite !orb_true_r.
Qed.

(** The replacement of the runs leaves lower-case letters, digits and
    dashes. *)
Lemma dash_runs_chars (in_run : bool) (s : jsstring) :
  Forall (fun c => is_lower c || is_digit c = true \/ c = chr "-") (dash_runs in_run s).
Proof.
  revert in_run. induction s as [|c rest IH]; intros in_run; cbn [dash_runs]; [done|].
  destruct (is_lower c || is_digit c) eqn:Hc.
  - constructor; [by left|apply IH].
  - destruct in_run; [apply IH|]. constructor; [by right|apply IH].
Qed.

(** Without letter or digit, one dash is all that is left. *)
Lemma dash_runs_no_alnum (s : jsstring) :
  Forall (fun c => is_lower c || is_digit c = false) s ->
  dash_runs true s = [] /\ (s <> [] -> dash_runs false s = [chr "-"]).
Proof.
  induction 1 as [|c rest Hc _ [IHt IHf]]; cbn [dash_runs]; [done|].
  rewrite Hc. split; [done|]. intros _. by rewrite IHt.
Qed.

(** The trimming keeps what it does not remove. *)
Lemma trim_dash_chars (P : N -> Prop) (s : jsstring) :
  Forall P s -> Forall P (trim_dash s).
Proof.
  intros Hs. unfold trim_dash.
  set (s1 := match s with
             | c :: rest => if (c =? chr "-")%N then rest else s
             | [] => []
             end).
  assert (Forall P s1) as Hs1.
  { unfold s1. destruct Hs as [|c rest Hc Hrest]; [done|].
    destruct (c =? chr "-")%N; [done|by constructor]. }
  destruct (reverse s1) as [|c rest] eqn:Hrev; [done|].
  destruct (c =? chr "-")%N; [|done].
  apply Forall_reverse in Hs1. rewrite Hrev in Hs1.
  apply Forall_cons_1 in Hs1 as [_ Hrest]. by apply Forall_reverse.
Qed.

Section EntryPointProperties.
Context `{Engine}.
Variable toLowerCase : jsstring -> jsstring.
Variable toISOString : JsVal -> option jsstring.
Variable now : jsstring.
Variable eventId : jsstring.

Lemma slugify_chars (title : jsstring) :
  Forall (fun c => is_lower c || is_digit c = true \/ c = chr "-")
    (slugify toLowerCase title).
Proof. apply trim_dash_chars, dash_runs_chars. Qed.

Lemma slugify_unescaped (title : jsstring) :
  Forall (fun c => uriUnescaped c = true) (slugify toLowerCase title).
Proof.
  eapply list.Forall_impl; [apply slugify_chars|]. intros c [Hc| ->].
  - by apply alnum_unescaped.
  - apply dash_unescaped.
Qed.

Lemma slugify_no_slash (title : jsstring) : chr "/" ∉ slugify toLowerCase title.
Proof.
  intros Hin. pose proof (slugify_unescaped title) as Hsafe.
  rewrite list.Forall_forall in Hsafe. by apply Hsafe, uriUnescaped_not_slash in Hin.
Qed.

Lemma slugify_decodes (title : jsstring) :
  decodeURIComponent (slugify toLowerCase title) = OK (slugify toLowerCase title).
Proof.
  apply decodeURIComponent_plain. intros Hin. pose proof (slugify_unescaped title) as Hsafe.
  rewrite list.Forall_forall in Hsafe. by apply Hsafe, uriUnescaped_not_percent in Hin.
Qed.

(** A title without lower-case letter or digit, once in lower case, has
    the empty slug. *)
Lemma slugify_no_alnum (title : jsstring) :
  Forall (fun c => is_lower c || is_digit c = false) (toLowerCase title) ->
  slugify toLowerCase title = [].
Proof.
  intros Hnone. unfold slugify.
  destruct (toLowerCase title) as [|c rest] eqn:Hlower; [done|].
  by rewrite (proj2 (dash_runs_no_alnum _ Hnone)).
Qed.

(** [generateLifeOSURI] on an object whose timestamp the runtime reads as a
    date and whose title is a string. *)
Lemma generateLifeOSURI_object (o : gmap jsstring JsVal) (iso src ty title : jsstring) :
  toISOString (field o "timestamp") = Some iso ->
  field o "source" = VStr src -> field o "type" = VStr ty ->
  field o "title" = VStr title ->
  generateLifeOSURI toLowerCase toISOString (VObj o) =
    Returns (life_uri (default [] (split (chr "T") iso !! 0%nat)) src ty
               (slugify toLowerCase title)).
Proof.
  unfold generateLifeOSURI, uri_of, field. cbn [get]. by intros -> -> -> ->.
Qed.

(** X25. The slug of a title needs no escaping: it holds lower-case
    letters, digits and dashes only, whatever the title is, so that
    [encodeURIComponent] and [decodeURIComponent] leave it as it is, and it
    holds no slash. *)
Theorem slugify_is_url_safe (title : jsstring) :
  let slug := slugify toLowerCase title in
  Forall (fun c => is_lower c || is_digit c = true \/ c = chr "-") slug /\
  encodeURIComponent slug = OK slug /\
  decodeURIComponent slug = OK slug /\
  chr "/" ∉ slug.
Proof.
  intros slug. split; [apply slugify_chars|].
  split; [apply encodeURIComponent_unescaped, slugify_unescaped|].
  split; [apply slugify_decodes|apply slugify_no_slash].
Qed.

(** X26. The two generators agree, and the URI parses. For an object whose
    timestamp the runtime prints with a date of the form YYYY-MM-DD, whose
    source and type are strings that are not empty and hold no slash, and
    whose title is a string with a non-empty slug: [generateLifeOSURI]
    returns the URI that [generateURI] builds from that date, the source,
    the type and the slug, and [parseURI] reads these four back from it. *)
Theorem generateLifeOSURI_parses
    (o : gmap jsstring JsVal) (iso d src ty title : jsstring) :
  toISOString (field o "timestamp") = Some iso ->
  split (chr "T") iso !! 0%nat = Some d -> date_re d = true ->
  field o "source" = VStr src -> segment src ->
  field o "type" = VStr ty -> segment ty ->
  field o "title" = VStr title -> slugify toLowerCase title <> [] ->
  let c := {| date := d; source := src; type := ty;
              slug := slugify toLowerCase title; full := [] |} in
  exists uri,
    generateLifeOSURI toLowerCase toISOString (VObj o) = Returns uri /\
    generateURI c = OK uri /\
    parseURI uri = OK (with_full c uri).
Proof.
  intros Hiso Hd Hre Hsrc Hsegs Hty Hsegt Htitle Hslug c.
  exists (life_uri d src ty (slugify toLowerCase title)).
  split; [|split].
  - rewrite (generateLifeOSURI_object o iso src ty title) by done.
    by rewrite Hd.
  - unfold generateURI, c. cbn [date source type slug].
    rewrite (str_falsy_nonempty d) by (by apply date_re_nonempty).
    rewrite (str_falsy_nonempty src) by apply Hsegs.
    rewrite (str_falsy_nonempty ty) by apply Hsegt.
    rewrite (str_falsy_nonempty (slugify _ _)) by done.
    cbn [orb]. rewrite Hre. cbn [negb].
    by rewrite (encodeURIComponent_unescaped _ (slugify_unescaped title)).
  - rewrite parseURI_life_uri.
    + rewrite slugify_decodes. cbn [bind]. by rewrite Hre.
    + split; [by apply date_re_nonempty|by apply date_re_no_slash].
    + done.
    + done.
    + split; [done|apply slugify_no_slash].
Qed.

(** X27. A title without letter or digit gives a URI that [parseURI]
    rejects. For an object as above, the date being any non-empty text
    without slash, whose title in lower case holds no lower-case letter and
    no digit (punctuation, or letters outside ASCII): the slug is empty,
    [generateLifeOSURI] returns the URI with nothing after the last slash,
    and [parseURI] fails on it for want of a fourth segment. *)
Theorem generateLifeOSURI_empty_slug
    (o : gmap jsstring JsVal) (iso d src ty title : jsstring) :
  toISOString (field o "timestamp") = Some iso ->
  split (chr "T") iso !! 0%nat = Some d -> segment d ->
  field o "source" = VStr src -> segment src ->
  field o "type" = VStr ty -> segment ty ->
  field o "title" = VStr title ->
  Forall (fun c => is_lower c || is_digit c = false) (toLowerCase title) ->
  generateLifeOSURI toLowerCase toISOString (VObj o) = Returns (life_uri d src ty []) /\
  parseURI (life_uri d src ty []) = Throw URISegments.
Proof.
  intros Hiso Hd Hsegd Hsrc Hsegs Hty Hsegt Htitle Hnone. split.
  - rewrite (generateLifeOSURI_object o iso src ty title) by done.
    by rewrite Hd, slugify_no_alnum.
  - apply life_uri_empty_slug; done.
Qed.

Ltac in_props :=
  unfold prop; repeat first [apply list_elem_of_here | apply list_elem_of_further].

(** A property of an object literal whose names differ. *)
Lemma obj_field (props : list (jsstring * JsVal)) (name : string) (v : JsVal) :
  NoDup props.*1 -> (lit name, v) ∈ props -> field (list_to_map props) name = v.
Proof.
  intros Hnames Hin. unfold field.
  by rewrite (elem_of_list_to_map_1 props (lit name) v Hnames Hin).
Qed.

(** What [createLifeOSEvent] returns: an object with the URI of its own
    timestamp, source, type and title, which are the ones of the data, the
    source and the timestamp with their defaults. *)
Lemma createLifeOSEvent_returns (eventData event : JsVal) :
  createLifeOSEvent toLowerCase toISOString now eventId eventData = Returns event ->
  exists (created : gmap jsstring JsVal) (uri : jsstring) (source timestamp : JsVal),
    event = VObj created /\
    uri_of toLowerCase toISOString (field created "timestamp") (field created "source")
      (field created "type") (field created "title") = Returns uri /\
    field created "uri" = VStr uri /\
    field created "id" = VStr eventId /\
    get eventData (lit "title") = OK (field created "title") /\
    get eventData (lit "type") = OK (field created "type") /\
    get eventData (lit "mood") = OK (field created "mood") /\
    get eventData (lit "source") = OK source /\
    field created "source" = or_default source (str "manual") /\
    get eventData (lit "timestamp") = OK timestamp /\
    field created "timestamp" = or_default timestamp (VStr now).
Proof.
  unfold createLifeOSEvent. intros Hret.
  destruct (get eventData (lit "title")) as [title|e] eqn:Htitle; [|done].
  assert (forall name, exists v, get eventData name = OK v) as Hget.
  { intros name. destruct eventData; try done; by eexists. }
  destruct (Hget (lit "type")) as [type Htype].
  destruct (Hget (lit "source")) as [source Hsource].
  destruct (Hget (lit "timestamp")) as [timestamp Htimestamp].
  destruct (Hget (lit "mood")) as [mood Hmood].
  rewrite Htype, Hsource, Htimestamp, Hmood in Hret.
  destruct (uri_of _ _ _ _ _ _) as [uri| |e] eqn:Huri; [|done|done].
  unfold obj in Hret.
  match type of Hret with
  | Returns (VObj (list_to_map ?props)) = _ =>
      assert (NoDup props.*1) as Hnames
        by (apply (bool_decide_unpack _); vm_compute; exact I);
      assert (forall name v, (lit name, v) ∈ props -> field (list_to_map props) name = v)
        as Hfield by (intros name v; by apply obj_field);
      exists (list_to_map props), uri, source, timestamp
  end.
  split; [congruence|].
  rewrite (Hfield "timestamp"%string (or_default timestamp (VStr now)))
    by in_props.
  rewrite (Hfield "source"%string (or_default source (str "manual")))
    by in_props.
  rewrite (Hfield "type"%string type) by in_props.
  rewrite (Hfield "title"%string title) by in_props.
  rewrite (Hfield "mood"%string mood) by in_props.
  rewrite (Hfield "uri"%string (VStr uri)) by in_props.
  rewrite (Hfield "id"%string (VStr eventId)) by in_props.
  done.
Qed.

(** X28. The URI of a created event is its own: whatever
    [createLifeOSEvent] returns holds under [uri] the URI that
    [generateLifeOSURI] computes for it, and under [id] the identifier. *)
Theorem created_event_has_its_own_uri (eventData event : JsVal) :
  createLifeOSEvent toLowerCase toISOString now eventId eventData = Returns event ->
  exists uri,
    get event (lit "uri") = OK (VStr uri) /\
    generateLifeOSURI toLowerCase toISOString event = Returns uri /\
    get event (lit "id") = OK (VStr eventId).
Proof.
  intros (created & uri & source & timestamp & -> & Huri & Hfield & Hid & _)
    %createLifeOSEvent_returns.
  exists uri. unfold generateLifeOSURI. cbn [get]. unfold field in *.
  by rewrite Hfield, Hid.
Qed.

(** A mood that is falsy, or that converts to a number from 1 to 10, is
    compared without fault and found in range. *)
Lemma mood_in_range (mood : JsVal) :
  truthy mood = false \/
    converts mood = true /\ lt_lit mood 1 = false /\ gt_lit mood 10 = false ->
  mood_out_of_range mood = OK false.
Proof.
  unfold mood_out_of_range, less_than, greater_than, ToNumber.
  intros [->|(-> & -> & ->)]; [done|]. by destruct (truthy mood).
Qed.

(** The validator of the entry point on an object, by its fields. *)
Lemma validateLifeOSEvent_fields (o : gmap jsstring JsVal) (ty description uri : jsstring) :
  truthy (field o "title") = true ->
  field o "type" = VStr ty -> ty <> [] ->
  isValidEventType (VStr ty) = OK (VStr description) -> description <> [] ->
  truthy (field o "source") = true ->
  truthy (field o "timestamp") = true ->
  field o "uri" = VStr uri -> uri <> [] ->
  truthy (field o "mood") = false \/
    converts (field o "mood") = true /\
    lt_lit (field o "mood") 1 = false /\ gt_lit (field o "mood") 10 = false ->
  validateLifeOSEvent (VObj o) =
    OK match parseURI uri with
       | OK _ => {| isValid := true; errors := [] |}
       | Throw error =>
           {| isValid := false; errors := [lit "Invalid URI format: " ++ message error] |}
       end.
Proof.
  unfold validateLifeOSEvent, field. cbn [get bind].
  intros -> -> Hty Hreg Hd -> -> -> Huri Hmood.
  cbn [negb truthy]. rewrite (str_falsy_nonempty uri) by done. rewrite (str_falsy_nonempty ty) by done. cbn [negb].
  rewrite Hreg. cbn [bind truthy]. rewrite (str_falsy_nonempty description) by done.
  cbn [negb push_if parseURI_value].
  rewrite (mood_in_range _ Hmood). cbn [bind push_if].
  by destruct (parseURI uri).
Qed.

Lemma uri_of_strings (timestamp : JsVal) (iso d src ty title : jsstring) :
  toISOString timestamp = Some iso -> split (chr "T") iso !! 0%nat = Some d ->
  uri_of toLowerCase toISOString timestamp (VStr src) (VStr ty) (VStr title)
  = Returns (life_uri d src ty (slugify toLowerCase title)).
Proof. unfold uri_of. by intros -> ->. Qed.

(** [createLifeOSEvent] on an object whose title, type and effective source
    are strings and whose effective timestamp the runtime reads as a date:
    it returns an event, and these are its fields. *)
Lemma createLifeOSEvent_strings
    (o : gmap jsstring JsVal) (title ty src iso d : jsstring) :
  field o "title" = VStr title ->
  field o "type" = VStr ty ->
  or_default (field o "source") (str "manual") = VStr src ->
  toISOString (or_default (field o "timestamp") (VStr now)) = Some iso ->
  split (chr "T") iso !! 0%nat = Some d ->
  exists created : gmap jsstring JsVal,
    createLifeOSEvent toLowerCase toISOString now eventId (VObj o) = Returns (VObj created) /\
    field created "title" = VStr title /\
    field created "type" = VStr ty /\
    field created "source" = VStr src /\
    field created "timestamp" = or_default (field o "timestamp") (VStr now) /\
    field created "mood" = field o "mood" /\
    field created "uri" = VStr (life_uri d src ty (slugify toLowerCase title)).
Proof.
  intros Htitle Hty Hsrc Hiso Hd.
  assert (exists event,
            createLifeOSEvent toLowerCase toISOString now eventId (VObj o) = Returns event)
    as [event Hcreate].
  { unfold createLifeOSEvent. cbn [get]. unfold field in *.
    rewrite Htitle, Hty, Hsrc.
    rewrite (uri_of_strings _ iso d) by done. by eexists. }
  pose proof Hcreate as
    (created & uri & source & timestamp & -> & Huri & Hfuri & _ & Hctitle & Hctype
     & Hcmood & Hsource & Hcsource & Htimestamp & Hctimestamp)%createLifeOSEvent_returns.
  cbn [get] in Hctitle, Hctype, Hcmood, Hsource, Htimestamp.
  assert (field created "title" = VStr title) as Hft by (unfold field in *; congruence).
  assert (field created "type" = VStr ty) as Hfty by (unfold field in *; congruence).
  assert (field created "mood" = field o "mood") as Hfm by (unfold field in *; congruence).
  assert (source = field o "source") as -> by (unfold field; congruence).
  assert (timestamp = field o "timestamp") as -> by (unfold field; congruence).
  rewrite Hsrc in Hcsource.
  exists created. do 6 (split; [done|]).
  rewrite Hft, Hfty, Hcsource, Hctimestamp in Huri.
  rewrite (uri_of_strings _ iso d) in Huri by done.
  congruence.
Qed.

Lemma life_uri_nonempty (d src ty sl : jsstring) : life_uri d src ty sl <> [].
Proof. done. Qed.

(** X29. Events built from sound data are valid. For data whose title is a
    non-empty string with a non-empty slug, whose type is listed in the
    registry, whose source, given or by default, is a non-empty string
    without slash, whose timestamp, given or by default, is truthy and is
    printed by the runtime with a date of the form YYYY-MM-DD, and whose
    mood is falsy, or converts to a number and is neither below 1 nor
    above 10: [createLifeOSEvent]
    returns an event that [validateLifeOSEvent] finds valid, without
    error. *)
Theorem created_event_is_valid (o : gmap jsstring JsVal) (title ty src iso d : jsstring) :
  field o "title" = VStr title -> title <> [] -> slugify toLowerCase title <> [] ->
  field o "type" = VStr ty -> ty ∈ getAllEventTypesList ->
  or_default (field o "source") (str "manual") = VStr src -> segment src ->
  truthy (or_default (field o "timestamp") (VStr now)) = true ->
  toISOString (or_default (field o "timestamp") (VStr now)) = Some iso ->
  split (chr "T") iso !! 0%nat = Some d -> date_re d = true ->
  truthy (field o "mood") = false \/
    converts (field o "mood") = true /\
    lt_lit (field o "mood") 1 = false /\ gt_lit (field o "mood") 10 = false ->
  exists event,
    createLifeOSEvent toLowerCase toISOString now eventId (VObj o) = Returns event /\
    validateLifeOSEvent event = OK {| isValid := true; errors := [] |}.
Proof.
  intros Htitle Hne Hslug Hty Hlisted Hsrc Hseg Htruthy Hiso Hd Hre Hmood.
  destruct (createLifeOSEvent_strings o title ty src iso d)
    as (created & Hcreate & Hft & Hfty & Hfs & Hfts & Hfm & Hfu); try done.
  destruct (listed_type_described ty Hlisted) as [Hsegt (description & Hdne & Hvalid & _)].
  exists (VObj created). split; [done|].
  rewrite (validateLifeOSEvent_fields created ty description
             (life_uri d src ty (slugify toLowerCase title))).
  - rewrite parseURI_life_uri.
    + rewrite slugify_decodes. cbn [bind]. by rewrite Hre.
    + split; [by apply date_re_nonempty|by apply date_re_no_slash].
    + done.
    + done.
    + split; [done|apply slugify_no_slash].
  - rewrite Hft. cbn [truthy]. by rewrite str_falsy_nonempty.
  - done.
  - apply Hsegt.
  - done.
  - done.
  - rewrite Hfs. cbn [truthy]. rewrite str_falsy_nonempty; [done|apply Hseg].
  - by rewrite Hfts.
  - done.
  - apply life_uri_nonempty.
  - by rewrite Hfm.
Qed.

(** X30. A title without letter or digit gives an event that is not valid.
    For data as above, the date being any non-empty text without slash,
    whose title in lower case holds no lower-case letter and no digit:
    [createLifeOSEvent] returns an event whose URI has no slug, and
    [validateLifeOSEvent] reports its format as its only error. *)
Theorem created_event_without_slug_is_invalid
    (o : gmap jsstring JsVal) (title ty src iso d : jsstring) :
  field o "title" = VStr title -> title <> [] ->
  Forall (fun c => is_lower c || is_digit c = false) (toLowerCase title) ->
  field o "type" = VStr ty -> ty ∈ getAllEventTypesList ->
  or_default (field o "source") (str "manual") = VStr src -> segment src ->
  truthy (or_default (field o "timestamp") (VStr now)) = true ->
  toISOString (or_default (field o "timestamp") (VStr now)) = Some iso ->
  split (chr "T") iso !! 0%nat = Some d -> segment d ->
  truthy (field o "mood") = false \/
    converts (field o "mood") = true /\
    lt_lit (field o "mood") 1 = false /\ gt_lit (field o "mood") 10 = false ->
  exists event,
    createLifeOSEvent toLowerCase toISOString now eventId (VObj o) = Returns event /\
    get event (lit "uri") = OK (VStr (life_uri d src ty [])) /\
    validateLifeOSEvent event =
      OK {| isValid := false;
            errors := [lit "Invalid URI format: " ++ message URISegments] |}.
Proof.
  intros Htitle Hne Hnone Hty Hlisted Hsrc Hseg Htruthy Hiso Hd Hsegd Hmood.
  destruct (createLifeOSEvent_strings o title ty src iso d)
    as (created & Hcreate & Hft & Hfty & Hfs & Hfts & Hfm & Hfu); try done.
  rewrite (slugify_no_alnum title Hnone) in Hfu.
  destruct (listed_type_described ty Hlisted) as [Hsegt (description & Hdne & Hvalid & _)].
  exists (VObj created). split; [done|]. split.
  { cbn [get]. unfold field in Hfu. by rewrite Hfu. }
  rewrite (validateLifeOSEvent_fields created ty description (life_uri d src ty [])).
  - by rewrite life_uri_empty_slug.
  - rewrite Hft. cbn [truthy]. by rewrite str_falsy_nonempty.
  - done.
  - apply Hsegt.
  - done.
  - done.
  - rewrite Hfs. cbn [truthy]. rewrite str_falsy_nonempty; [done|apply Hseg].
  - by rewrite Hfts.
  - done.
  - apply life_uri_nonempty.
  - by rewrite Hfm.
Qed.

End EntryPointProperties.

(** ** When the two validators throw

    Both validators collect messages and are meant to return. They throw
    where a read or a conversion faults outside a [try]. The statements
    below keep to events whose type, when it is a string, is empty or
    listed in the registry: the registry is read here through its own keys,
    and a type that names a property every object inherits is left out. *)

Section ThrowProperties.
Context `{Engine}.
Variable timeValue : JsVal -> JsNum.














End ThrowProperties.

(** ** The statements at concrete inputs *)

#[local] Existing Instance node_engine.

Example register_spotify :
  registerResolver new_LifeURIResolver (lit "spotify") (Function (memoryResolver sample_events))
  = OK sample_registry.
Proof. reflexivity. Qed.

Example register_not_a_function :
  registerResolver new_LifeURIResolver (lit "spotify") (NotFunction (str "resolver"))
  = Throw ResolverNotFunction.
Proof. reflexivity. Qed.

Example resolve_pink_white :
  resolveURI sample_registry (lit "life://2025-07-09/spotify/music.play/pink-white")
  = OK (VObj (sample_with [])).
Proof. vm_compute. reflexivity. Qed.

Lemma mood_boundary_witness :
  validateLifeEvent (VObj (sample_with [prop "mood" (num 1)])) = OK tt /\
  validateLifeEvent (VObj (sample_with [prop "mood" (num 10)])) = OK tt /\
  validateLifeEvent (VObj (sample_with [prop "mood" (num 0)])) = Throw (BadMood (num 0)) /\
  validateLifeEvent (VObj (sample_with [prop "mood" (num 11)])) = Throw (BadMood (num 11)) /\
  validateLifeEvent (VObj (sample_with [prop "mood" (str "7")])) = Throw (BadMood (str "7")).
Proof.
  assert (forall m, m <> VUndefined ->
            sample_with [prop "mood" m] !! lit "mood" = Some m /\
            validateLifeEvent (VObj (delete (lit "mood") (sample_with [prop "mood" m]))) = OK tt)
    as Hsample.
  { intros m _. split; [reflexivity|]. vm_compute. reflexivity. }
  split; [|split; [|split; [|split]]].
  - destruct (Hsample (num 1)) as [Hm Hrest]; [done|].
    destruct (mood_boundary _ _ Hm ltac:(done) Hrest) as (Hin & _ & H1 & _). exact (Hin H1).
  - destruct (Hsample (num 10)) as [Hm Hrest]; [done|].
    destruct (mood_boundary _ _ Hm ltac:(done) Hrest) as (Hin & _ & _ & H10 & _).
    exact (Hin H10).
  - destruct (Hsample (num 0)) as [Hm Hrest]; [done|].
    destruct (mood_boundary _ _ Hm ltac:(done) Hrest)
      as (_ & Hout & _ & _ & H0 & _ & Hconv & _).
    exact (proj1 (Hout H0 Hconv)).
  - destruct (Hsample (num 11)) as [Hm Hrest]; [done|].
    destruct (mood_boundary _ _ Hm ltac:(done) Hrest)
      as (_ & Hout & _ & _ & _ & H11 & _ & Hconv).
    exact (proj1 (Hout H11 Hconv)).
  - destruct (Hsample (str "7")) as [Hm Hrest]; [done|].
    destruct (mood_boundary _ _ Hm ltac:(done) Hrest) as (_ & Hout & _).
    apply Hout; [|reflexivity]. intros (z & _ & Heq). discriminate Heq.
Defined.

(** C6, as stated, fails. The event below passes every other rule and has
    a mood that is no integer from 1 to 10: an object that owns a property
    [toString] that is no function. The validation reaches the mood rule
    and, building the message of the mood error, fails with the runtime's
    TypeError of the conversion, which is no RangeError. *)
Lemma mood_without_text_is_a_runtime_fault :
  let m := obj [prop "toString" (num 0)] in
  let o := sample_with [prop "mood" m] in
  o !! lit "mood" = Some m /\ m <> VUndefined /\
  validateLifeEvent (VObj (delete (lit "mood") o)) = OK tt /\
  ~ integer_between 1 10 m /\
  validateLifeEvent (VObj o) = Throw (Runtime (NotPrimitive m)) /\
  kind (Runtime (NotPrimitive m)) <> RangeError.
Proof.
  intros m o. split; [reflexivity|]. split; [discriminate|].
  split; [vm_compute; reflexivity|]. split.
  - intros (z & _ & Heq). discriminate Heq.
  - split; [vm_compute; reflexivity|discriminate].
Qed.

Lemma sample_head_valid (o : gmap jsstring JsVal) :
  o !! lit "timestamp" = Some (str "2025-07-09T09:00:00Z") ->
  o !! lit "source" = Some (str "spotify") ->
  o !! lit "type" = Some (str "music.play") ->
  head_valid o.
Proof.
  intros Hts Hsrc Hty. unfold head_valid, shown_matches, field.
  rewrite Hts, Hsrc, Hty.
  do 3 (split; [reflexivity|]).
  split; [|split; [|reflexivity]]; eexists; (split; [reflexivity|]);
    vm_compute; reflexivity.
Qed.

Lemma title_rule_witness :
  validateLifeEvent (VObj (sample_with [prop "title" (num 42)])) = Throw (BadTitle (num 42)) /\
  validateLifeEvent (VObj (delete (lit "title") (sample_with [])))
    = Throw (MissingField (lit "title")).
Proof.
  split.
  - destruct (title_rule (sample_with [prop "title" (num 42)])) as [_ Hbad].
    { by apply sample_head_valid. }
    apply Hbad; [reflexivity | vm_compute; reflexivity | discriminate | reflexivity].
  - destruct (title_rule (delete (lit "title") (sample_with []))) as [Habsent _].
    { by apply sample_head_valid. }
    by apply Habsent.
Defined.

(** C3, as stated, fails. The events below have a valid timestamp, source
    and type, and a title that is present and is not a non-empty string: the
    number 0 in the first, the empty string in the second. The validation
    fails with the missing-field error, which is no FormatError. *)
Lemma falsy_title_is_reported_missing :
  let o := sample_with [prop "title" (num 0)] in
  let o' := sample_with [prop "title" (str "")] in
  (head_valid o /\ o !! lit "title" = Some (num 0) /\
   validateLifeEvent (VObj o) = Throw (MissingField (lit "title"))) /\
  (head_valid o' /\ o' !! lit "title" = Some (VStr []) /\
   validateLifeEvent (VObj o') = Throw (MissingField (lit "title"))) /\
  kind (MissingField (lit "title")) <> FormatError.
Proof.
  split; [|split]; [| |discriminate];
    (split; [by apply sample_head_valid|split; vm_compute; reflexivity]).
Qed.

Lemma resolve_wraps_validation_failure_witness :
  resolveURI sample_registry (lit "life://2025-07-09/spotify/music.play/untimed")
  = Throw (ResolveFailed (lit "life://2025-07-09/spotify/music.play/untimed")
             (lit "Missing required field: timestamp. LifeEvents must include timestamp, source, type, and title.")).
Proof.
  pose proof (resolve_wraps_validation_failure sample_registry
                (lit "life://2025-07-09/spotify/music.play/untimed")
                {| date := lit "2025-07-09"; source := lit "spotify";
                   type := lit "music.play"; slug := lit "untimed";
                   full := lit "life://2025-07-09/spotify/music.play/untimed" |}
                (memoryResolver sample_events) untimed_event
                (MissingField (lit "timestamp"))) as Hw.
  destruct Hw as [Hresolve _]; [vm_compute; reflexivity..|].
  exact Hresolve.
Defined.

Lemma resolve_unknown_source_witness :
  resolveURI sample_registry (lit "life://2025-07-09/unknownsource/x.y/z")
  = Throw (NoResolver (lit "unknownsource")).
Proof.
  pose proof (resolve_unknown_source sample_registry
                (lit "life://2025-07-09/unknownsource/x.y/z")
                {| date := lit "2025-07-09"; source := lit "unknownsource";
                   type := lit "x.y"; slug := lit "z";
                   full := lit "life://2025-07-09/unknownsource/x.y/z" |}) as Hw.
  destruct Hw as [Hresolve _]; [vm_compute; reflexivity..|].
  exact Hresolve.
Defined.

Lemma zero_mood_passes_entry_validator_witness :
  let o := sample_with [prop "mood" (num 0);
                        prop "uri" (str "life://2025-07-09/spotify/music.play/pink-white")] in
  validateLifeOSEvent (VObj o) = OK {| isValid := true; errors := [] |} /\
  validateLifeEvent (VObj o) = Throw (BadMood (num 0)).
Proof.
  intros o.
  pose proof (zero_mood_passes_entry_validator o (lit "music.play")
                (str "User started playing a track")
                {| date := lit "2025-07-09"; source := lit "spotify";
                   type := lit "music.play"; slug := lit "pink-white";
                   full := lit "life://2025-07-09/spotify/music.play/pink-white" |}) as Hw.
  destruct Hw as (Hentry & _ & e & Hcore & Hmood);
    [first [vm_compute; reflexivity | discriminate]..|].
  split; [exact Hentry|].
  rewrite Hcore. f_equal. apply Hmood. vm_compute. reflexivity.
Defined.

(** ** The further statements at concrete inputs *)

Lemma parseURI_components_are_segments_witness :
  segment (lit "2025-07-09") /\ segment (lit "spotify") /\ segment (lit "music.play") /\
  (code_units escaped_uri -> code_units (lit "pink+white / 50%")).
Proof.
  apply (parseURI_components_are_segments escaped_uri (with_full escaped_components escaped_uri)).
  vm_compute. reflexivity.
Defined.

Lemma generateURI_escapes_slug_witness :
  exists e,
    escaped_uri = life_uri (lit "2025-07-09") (lit "spotify") (lit "music.play") e /\
    e <> [] /\
    Forall (fun x => uriUnescaped x = true \/ x = chr "%") e /\
    decodeURIComponent e = OK (lit "pink+white / 50%").
Proof.
  apply (generateURI_escapes_slug escaped_components escaped_uri).
  - compute_done.
  - vm_compute. reflexivity.
Defined.

Lemma generateURI_errors_witness :
  let c := {| date := lit "2025-07-09"; source := lit "spotify"; type := lit "music.play";
              slug := [0xD800%N]; full := [] |} in
  generateURI c = Throw (Runtime MalformedURI) /\
  generateURI (with_full c (lit "life://")) = Throw (Runtime MalformedURI).
Proof.
  intros c. split; [vm_compute; reflexivity|].
  apply (generateURI_errors (with_full c (lit "life://")) (Runtime MalformedURI)).
  right; right. repeat (split; [done|]). split; vm_compute; reflexivity.
Defined.


Lemma parseURI_joins_slug_segments_witness :
  parseURI (lit "life://2025-07-09/spotify/music.play/a//b/c")
  = (slug <- decodeURIComponent (lit "a/b/c");;
     if negb (date_re (lit "2025-07-09")) then Throw DateFormat
     else OK {| date := lit "2025-07-09"; source := lit "spotify"; type := lit "music.play";
                slug := slug; full := lit "life://2025-07-09/spotify/music.play/a//b/c" |}).
Proof.
  apply (parseURI_joins_slug_segments (lit "2025-07-09") (lit "spotify") (lit "music.play")
           (lit "a") [(1%nat, lit "b"); (0%nat, lit "c")]).
  - compute_done.
  - compute_done.
  - compute_done.
  - compute_done.
  - repeat constructor; compute_done.
Defined.


Lemma generate_parse_roundtrip_every_slug_witness :
  exists uri,
    generateURI escaped_components = OK uri /\
    parseURI uri = OK (with_full escaped_components uri).
Proof.
  apply (generate_parse_roundtrip_every_slug escaped_components).
  - vm_compute. reflexivity.
  - compute_done.
  - compute_done.
  - done.
  - compute_done.
  - vm_compute. reflexivity.
Defined.

Lemma validateLifeEvent_not_an_object_witness :
  validateLifeEvent (str "an event") = Throw (MissingField (lit "timestamp")) /\
  validateLifeEvent VNull = Throw (Runtime (ReadOfNullish VNull (lit "timestamp"))).
Proof.
  split.
  - apply (validateLifeEvent_not_an_object (str "an event")). done.
  - apply (validateLifeEvent_not_an_object VNull). done.
Defined.

Lemma first_missing_field_is_reported_witness :
  validateLifeEvent
    (obj [prop "timestamp" (str "yesterday"); prop "source" (str "spotify");
          prop "type" (str "music.play")])
  = Throw (MissingField (lit "title")).
Proof.
  apply (first_missing_field_is_reported _
           [lit "timestamp"; lit "source"; lit "type"] [] (lit "title")).
  - reflexivity.
  - repeat constructor.
  - reflexivity.
Defined.

Lemma timestamp_and_type_need_not_be_strings_witness :
  validateLifeEvent
    (VObj (<[lit "type" := VArr [str "music.play"]]>
             (<[lit "timestamp" := VArr [str "2025-07-09T09:00:00Z"]]> (sample_with []))))
  = OK tt.
Proof.
  apply (timestamp_and_type_need_not_be_strings (sample_with [])
           (lit "2025-07-09T09:00:00Z") (lit "music.play")).
  - reflexivity.
  - reflexivity.
  - vm_compute. reflexivity.
Defined.

Lemma registerResolver_frame_witness :
  (forall uri,
     (forall parsed, parseURI uri = OK parsed -> source parsed <> lit "spotify") ->
     resolveURI sample_registry uri = resolveURI new_LifeURIResolver uri) /\
  resolveURI sample_registry (lit "life://2025-07-09/spotify/music.play/pink-white")
  = OK (VObj (sample_with [])).
Proof.
  destruct (registerResolver_frame new_LifeURIResolver sample_registry (lit "spotify")
              (memoryResolver sample_events) eq_refl) as [Hother Hsource].
  split; [exact Hother|].
  apply (Hsource _ {| date := lit "2025-07-09"; source := lit "spotify";
                      type := lit "music.play"; slug := lit "pink-white";
                      full := lit "life://2025-07-09/spotify/music.play/pink-white" |}).
  - vm_compute. reflexivity.
  - reflexivity.
  - vm_compute. reflexivity.
  - vm_compute. reflexivity.
Defined.

Lemma resolveURI_returns_validated_witness :
  exists parsed resolver o,
    parseURI (lit "life://2025-07-09/spotify/music.play/pink-white") = OK parsed /\
    resolvers sample_registry !! source parsed = Some resolver /\
    resolver parsed = Resolved (VObj (sample_with [])) /\
    VObj (sample_with []) = VObj o /\ validateLifeEvent (VObj o) = OK tt.
Proof.
  apply (resolveURI_returns_validated sample_registry).
  vm_compute. reflexivity.
Defined.

Lemma memoryResolver_serves_generated_witness :
  let events : gmap jsstring JsVal :=
    {[ lit "2025-07-09/spotify/music.play/pink+white / 50%" := VObj (sample_with []) ]} in
  let this := {| resolvers := {[ lit "spotify" := memoryResolver events ]} |} in
  resolveURI this escaped_uri = OK (VObj (sample_with [])).
Proof.
  intros events this.
  destruct (memoryResolver_serves_generated this events escaped_components escaped_uri)
    as [Hhit _].
  - vm_compute. reflexivity.
  - compute_done.
  - compute_done.
  - compute_done.
  - reflexivity.
  - apply Hhit.
    + reflexivity.
    + vm_compute. reflexivity.
Defined.

Lemma validateLifeOSEvent_valid_iff_witness :
  let r := {| isValid := true; errors := [] |} in
  validateLifeOSEvent (VObj sample_entry) = OK r /\
  (isValid r = true <-> errors r = []) /\
  (isValid r = true <->
   truthy (field sample_entry "title") = true /\
   truthy (field sample_entry "source") = true /\
   truthy (field sample_entry "timestamp") = true /\
   (exists ty description,
      field sample_entry "type" = VStr ty /\ isValidEventType (VStr ty) = OK description /\
      truthy description = true) /\
   (exists uri c, field sample_entry "uri" = VStr uri /\ parseURI uri = OK c) /\
   (truthy (field sample_entry "mood") = false \/
    lt_lit (field sample_entry "mood") 1 = false /\
    gt_lit (field sample_entry "mood") 10 = false)).
Proof.
  intros r. split; [vm_compute; reflexivity|].
  apply (validateLifeOSEvent_valid_iff sample_entry r). vm_compute. reflexivity.
Defined.

Lemma falsy_uri_is_reported_twice_witness :
  let r := {| isValid := false;
              errors := [lit "URI is required";
                         lit "Invalid URI format: Cannot read properties of undefined (reading 'startsWith')"] |} in
  exists error,
    parseURI_value (field (sample_with []) "uri") = Throw error /\
    lit "URI is required" ∈ errors r /\
    lit "Invalid URI format: " ++ message error ∈ errors r.
Proof.
  intros r. apply (falsy_uri_is_reported_twice (sample_with []) r).
  - reflexivity.
  - vm_compute. reflexivity.
Defined.


Lemma validateEvent_valid_iff_witness :
  let o := sample_with [prop "linked_uris" (VArr [str "journal/midyear-reflection"])] in
  let this := {| CLI.errors :=
                   [message (BadLinkedURI (str "journal/midyear-reflection"));
                    lit "Invalid linked URI: journal/midyear-reflection - Invalid life:// URI format"];
                 CLI.warnings := [] |} in
  CLI.validateEvent number_timeValue (VObj o) = OK (false, this) /\
  (false = true <-> CLI.errors this = []) /\
  (false = true <->
   validateLifeEvent (VObj o) = OK tt /\
   (truthy (field o "metadata") = false \/ CLI.typeof_object (field o "metadata") = true) /\
   (truthy (field o "linked_uris") = false \/
    exists uris : list jsstring,
      field o "linked_uris" = VArr (map VStr uris) /\
      Forall (fun s => exists c, parseURI s = OK c) uris)).
Proof.
  intros o this. split; [vm_compute; reflexivity|].
  apply (validateEvent_valid_iff number_timeValue o false this). vm_compute. reflexivity.
Defined.


Lemma linkEvents_replaces_earlier_links_witness :
  let primary := linkable_event "a" in
  exists relinked,
    linkEvents (VObj (<[lit "related_events" := VArr [str "b"]]> (spread primary)))
      (VArr [linkable_event "c"; VNull; linkable_event "d"]) = OK relinked /\
    forall direct,
      linkEvents primary (VArr [linkable_event "c"; VNull; linkable_event "d"]) = OK direct ->
      direct = relinked.
Proof.
  intros primary.
  apply (linkEvents_replaces_earlier_links primary (linkable_event "b")).
  vm_compute. reflexivity.
Defined.

Lemma generateLifeOSURI_parses_witness :
  let c := {| date := lit "2025-07-09"; source := lit "spotify"; type := lit "music.play";
              slug := lit "pink-white"; full := [] |} in
  exists uri,
    generateLifeOSURI ascii_toLowerCase utc_toISOString (VObj (sample_with [])) = Returns uri /\
    generateURI c = OK uri /\
    parseURI uri = OK (with_full c uri).
Proof.
  apply (generateLifeOSURI_parses ascii_toLowerCase utc_toISOString (sample_with [])
           (lit "2025-07-09T09:00:00.000Z") (lit "2025-07-09") (lit "spotify")
           (lit "music.play") (lit "Pink + White")).
  - reflexivity.
  - reflexivity.
  - reflexivity.
  - reflexivity.
  - compute_done.
  - reflexivity.
  - compute_done.
  - reflexivity.
  - done.
Defined.

Lemma generateLifeOSURI_empty_slug_witness :
  generateLifeOSURI ascii_toLowerCase utc_toISOString
    (VObj (sample_with [prop "title" (str "?!")]))
  = Returns (lit "life://2025-07-09/spotify/music.play/") /\
  parseURI (lit "life://2025-07-09/spotify/music.play/") = Throw URISegments.
Proof.
  apply (generateLifeOSURI_empty_slug ascii_toLowerCase utc_toISOString
           (sample_with [prop "title" (str "?!")])
           (lit "2025-07-09T09:00:00.000Z") (lit "2025-07-09") (lit "spotify")
           (lit "music.play") (lit "?!")).
  - reflexivity.
  - reflexivity.
  - compute_done.
  - reflexivity.
  - compute_done.
  - reflexivity.
  - compute_done.
  - reflexivity.
  - repeat constructor.
Defined.

Lemma created_event_has_its_own_uri_witness :
  exists event uri,
    createLifeOSEvent ascii_toLowerCase utc_toISOString (lit "2025-07-09T09:00:00.000Z")
      (lit "event_1752051600000_k3j5x9q2p") (VObj (sample_data "Pink + White"))
    = Returns event /\
    get event (lit "uri") = OK (VStr uri) /\
    generateLifeOSURI ascii_toLowerCase utc_toISOString event = Returns uri /\
    get event (lit "id") = OK (str "event_1752051600000_k3j5x9q2p").
Proof.
  destruct (createLifeOSEvent ascii_toLowerCase utc_toISOString
              (lit "2025-07-09T09:00:00.000Z") (lit "event_1752051600000_k3j5x9q2p")
              (VObj (sample_data "Pink + White"))) as [event| |e] eqn:Hcreate;
    [|discriminate Hcreate|discriminate Hcreate].
  destruct (created_event_has_its_own_uri _ _ _ _ _ _ Hcreate) as (uri & Huri & Hgen & Hid).
  by exists event, uri.
Defined.

Lemma created_event_is_valid_witness :
  exists event,
    createLifeOSEvent ascii_toLowerCase utc_toISOString (lit "2025-07-09T09:00:00.000Z")
      (lit "event_1752051600000_k3j5x9q2p") (VObj (sample_data "Pink + White"))
    = Returns event /\
    validateLifeOSEvent event = OK {| isValid := true; errors := [] |}.
Proof.
  apply (created_event_is_valid ascii_toLowerCase utc_toISOString
           (lit "2025-07-09T09:00:00.000Z") (lit "event_1752051600000_k3j5x9q2p")
           (sample_data "Pink + White")
           (lit "Pink + White") (lit "music.play") (lit "manual")
           (lit "2025-07-09T09:00:00.000Z") (lit "2025-07-09")).
  - reflexivity.
  - done.
  - done.
  - reflexivity.
  - compute_done.
  - reflexivity.
  - compute_done.
  - reflexivity.
  - reflexivity.
  - reflexivity.
  - reflexivity.
  - right. split; [reflexivity|]. split; vm_compute; reflexivity.
Defined.

Lemma created_event_without_slug_is_invalid_witness :
  exists event,
    createLifeOSEvent ascii_toLowerCase utc_toISOString (lit "2025-07-09T09:00:00.000Z")
      (lit "event_1752051600000_k3j5x9q2p") (VObj (sample_data "?!"))
    = Returns event /\
    get event (lit "uri") = OK (str "life://2025-07-09/manual/music.play/") /\
    validateLifeOSEvent event =
      OK {| isValid := false;
            errors := [lit "Invalid URI format: life:// URI must have format: life://<date>/<source>/<type>/<slug>"] |}.
Proof.
  apply (created_event_without_slug_is_invalid ascii_toLowerCase utc_toISOString
           (lit "2025-07-09T09:00:00.000Z") (lit "event_1752051600000_k3j5x9q2p")
           (sample_data "?!")
           (lit "?!") (lit "music.play") (lit "manual")
           (lit "2025-07-09T09:00:00.000Z") (lit "2025-07-09")).
  - reflexivity.
  - done.
  - repeat constructor.
  - reflexivity.
  - compute_done.
  - reflexivity.
  - compute_done.
  - reflexivity.
  - reflexivity.
  - reflexivity.
  - compute_done.
  - right. split; [reflexivity|]. split; vm_compute; reflexivity.
Defined.
